(** * Boundary trust layer of the games SDK

    Shallow embedding of the event validation engine
    ([src/events/event-validators.ts]), the emission pipeline
    ([createEventEmitter]), the lifecycle gate ([src/platform/eventGate.ts]),
    the session driver ([createSessionDriver]) and the capability guard
    ([src/core/capability-guard.ts]). *)

From Stdlib Require Import String Ascii List ZArith QArith Bool Lia.
Import ListNotations.

Set Warnings "-register-all".

Open Scope Z_scope.

(* ================================================================= *)
(** ** JavaScript values *)

(** A JavaScript number.  A finite number is kept as the decimal
    [m * 10^e] that [Number.prototype.toString] prints for it; the
    clamping code only compares numbers and picks one of its arguments,
    so no rounding arithmetic is needed. *)
Inductive jsnum : Type :=
| NFin (m : Z) (e : Z)
| NPosInf
| NNegInf
| NNaN.

(** Runtime values a guest can hand to the SDK: JSON-like data, plus
    functions ([JFun]) and symbols ([JSym]).  Objects and arrays are
    finite trees: a cyclic object is outside this model. *)
Inductive jsval : Type :=
| JUndefined
| JNull
| JBool (b : bool)
| JNum (n : jsnum)
| JStr (s : string)
| JBigInt (z : Z)
| JFun
| JSym
| JArr (xs : list jsval)
| JObj (props : list (string * jsval)).

Definition props := list (string * jsval).

(** Exceptions raised by the modelled code. *)
Inductive js_error : Type :=
| UnknownEventTypeError (eventType : string)
| TypeError (msg : string)
| InvalidTimestampError (ts : Z)
| InvalidDurationError (d : Z)
| SdkStateError (msg : string)
| CapabilityNotDeclaredError (capability : string)
| SdkInternalError (msg : string)
| HostError (msg : string)
| GuestCodeError.

(** A call either returns or throws. *)
Inductive outcome (A : Type) : Type :=
| Ret (a : A)
| Throw (exn : js_error).
Arguments Ret {A} a.
Arguments Throw {A} exn.

Definition is_throw {A} (o : outcome A) : bool :=
  match o with Throw _ => true | Ret _ => false end.

(** *** Numbers *)

Definition num_Q (m e : Z) : Q :=
  if 0 <=? e then inject_Z (m * 10 ^ e) else Qmake m (Z.to_pos (10 ^ (- e))).

Definition js_int (z : Z) : jsnum := NFin z 0.

(** [a < b] *)
Definition num_lt (a b : jsnum) : bool :=
  match a, b with
  | NNaN, _ | _, NNaN => false
  | NPosInf, _ => false
  | _, NNegInf => false
  | NNegInf, _ => true
  | _, NPosInf => true
  | NFin m e, NFin m' e' => negb (Qle_bool (num_Q m' e') (num_Q m e))
  end.

(** [a === b] on numbers *)
Definition num_eq (a b : jsnum) : bool :=
  match a, b with
  | NFin m e, NFin m' e' => Qeq_bool (num_Q m e) (num_Q m' e')
  | NPosInf, NPosInf | NNegInf, NNegInf => true
  | _, _ => false
  end.

Definition num_is_finite (n : jsnum) : bool :=
  match n with NFin _ _ => true | _ => false end.

(** [Number.isInteger] *)
Definition num_is_integer (n : jsnum) : bool :=
  match n with
  | NFin m e => (0 <=? e) || (m mod 10 ^ (- e) =? 0)
  | _ => false
  end.

(** [Math.min] / [Math.max], used on finite numbers only. *)
Definition js_min (a b : jsnum) : jsnum := if num_lt b a then b else a.
Definition js_max (a b : jsnum) : jsnum := if num_lt a b then b else a.

(** *** [Number.prototype.toString] (ECMA-262 Number::toString, radix 10) *)

Definition digit_char (d : Z) : ascii := ascii_of_nat (48 + Z.to_nat d).

Fixpoint digits_aux (fuel : nat) (n : Z) (acc : string) : string :=
  match fuel with
  | O => acc
  | S f =>
      let acc' := String (digit_char (n mod 10)) acc in
      if n <? 10 then acc' else digits_aux f (n / 10) acc'
  end.

(** decimal digits of a non-negative integer *)
Definition digits_of (n : Z) : string :=
  digits_aux (S (Z.to_nat (Z.log2 n))) n EmptyString.

Fixpoint strip_zeros (fuel : nat) (m e : Z) : Z * Z :=
  match fuel with
  | O => (m, e)
  | S f =>
      if m =? 0 then (m, e)
      else if m mod 10 =? 0 then strip_zeros f (m / 10) (e + 1) else (m, e)
  end.

Fixpoint zeros (n : nat) : string :=
  match n with O => EmptyString | S k => String "0"%char (zeros k) end.

Definition fin_to_string (m e : Z) : string :=
  if m =? 0 then "0"%string else
  let '(m', e') := strip_zeros (S (Z.to_nat (Z.log2 (Z.abs m)))) (Z.abs m) e in
  let ds := digits_of m' in
  let k := Z.of_nat (String.length ds) in
  let n := e' + k in
  let sgn := if m <? 0 then "-"%string else EmptyString in
  let body :=
    if Z.leb k n && Z.leb n 21 then append ds (zeros (Z.to_nat (n - k)))
    else if Z.ltb 0 n && Z.leb n 21 then
      append (substring 0 (Z.to_nat n) ds)
        (append "." (substring (Z.to_nat n) (Z.to_nat (k - n)) ds))
    else if Z.ltb (-6) n && Z.leb n 0 then
      append "0." (append (zeros (Z.to_nat (- n))) ds)
    else
      let x := n - 1 in
      let ex := append "e" (append (if x <? 0 then "-" else "+") (digits_of (Z.abs x))) in
      if k =? 1 then append ds ex
      else append (substring 0 1 ds)
             (append "." (append (substring 1 (Z.to_nat (k - 1)) ds) ex)) in
  append sgn body.

Definition num_to_string (n : jsnum) : string :=
  match n with
  | NFin m e => fin_to_string m e
  | NPosInf => "Infinity"
  | NNegInf => "-Infinity"
  | NNaN => "NaN"
  end.

(** [String(n)] for a size in bytes *)
Definition N_to_string (n : N) : string := digits_of (Z.of_N n).

(** *** Objects: property read [o[k]], [k in o], assignment and [delete] *)

Fixpoint lookup (o : props) (k : string) : option jsval :=
  match o with
  | [] => None
  | (k', v) :: o' => if String.eqb k k' then Some v else lookup o' k
  end.

Definition get (o : props) (k : string) : jsval :=
  match lookup o k with Some v => v | None => JUndefined end.

Definition has_prop (o : props) (k : string) : bool :=
  match lookup o k with Some _ => true | None => false end.

Definition set_prop (o : props) (k : string) (v : jsval) : props :=
  if has_prop o k
  then map (fun kv => if String.eqb k (fst kv) then (k, v) else kv) o
  else o ++ [(k, v)].

Definition del_prop (o : props) (k : string) : props :=
  filter (fun kv => negb (String.eqb k (fst kv))) o.

(** *** [estimateSize]: UTF-8 byte length of [JSON.stringify(value)]

    JavaScript strings are modelled by their UTF-16 code units 0..255
    (one [ascii] each).  In [JSON.stringify], the double quote, the
    backslash and the short control escapes take two bytes, other control characters six
    ([\u00XX]); a code unit from 0x80 is unescaped and two bytes in
    UTF-8. *)

Definition char_json_len (c : ascii) : N :=
  let n := N_of_ascii c in
  if (n =? 34)%N || (n =? 92)%N then 2
  else if (n =? 8)%N || (n =? 9)%N || (n =? 10)%N || (n =? 12)%N || (n =? 13)%N then 2
  else if (n <? 32)%N then 6
  else if (n <? 128)%N then 1
  else 2.

Fixpoint str_body_len (s : string) : N :=
  match s with
  | EmptyString => 0
  | String c s' => char_json_len c + str_body_len s'
  end.

Definition quoted_len (s : string) : N := 2 + str_body_len s.

(** Result of [JSON.stringify]: [undefined], a text of the given byte
    length, or a thrown [TypeError] (a BigInt anywhere). *)
Inductive sres : Type :=
| SUndef
| SLen (n : N)
| SThrow.

(** Byte length of [JSON.stringify(v)].  An array prints [null] for an
    element that stringifies to [undefined]; an object skips such a
    member; non-finite numbers print [null].  Values are finite trees
    here, so the [TypeError] [JSON.stringify] raises on a cyclic object
    is outside the model. *)
Fixpoint stringify_len (v : jsval) : sres :=
  match v with
  | JUndefined | JFun | JSym => SUndef
  | JNull => SLen 4
  | JBool true => SLen 4
  | JBool false => SLen 5
  | JNum (NFin m e) => SLen (N.of_nat (String.length (fin_to_string m e)))
  | JNum _ => SLen 4
  | JStr s => SLen (quoted_len s)
  | JBigInt _ => SThrow
  | JArr xs =>
      let fix items (xs : list jsval) : option (N * N) :=
        match xs with
        | [] => Some (0, 0)
        | x :: xs' =>
            match stringify_len x, items xs' with
            | SThrow, _ | _, None => None
            | SUndef, Some (len, cnt) => Some (4 + len, 1 + cnt)
            | SLen n, Some (len, cnt) => Some (n + len, 1 + cnt)
            end
        end%N in
      match items xs with
      | None => SThrow
      | Some (len, cnt) => SLen (2 + len + (cnt - 1))
      end
  | JObj o =>
      let fix members (o : props) : option (N * N) :=
        match o with
        | [] => Some (0, 0)
        | (k, x) :: o' =>
            match stringify_len x, members o' with
            | SThrow, _ | _, None => None
            | SUndef, Some (len, cnt) => Some (len, cnt)
            | SLen n, Some (len, cnt) => Some (quoted_len k + 1 + n + len, 1 + cnt)
            end
        end%N in
      match members o with
      | None => SThrow
      | Some (len, cnt) => SLen (2 + len + (cnt - 1))
      end
  end%N.

(** Maximum size of a state blob in bytes (~1MB) *)
Definition MAX_STATE_BLOB_SIZE : N := 1024 * 1024.

(** Maximum size of any single event in bytes (~64KB) *)
Definition MAX_EVENT_SIZE : N := 64 * 1024.

(** [new TextEncoder().encode(JSON.stringify(value)).length]; a throw is
    caught and gives [MAX_EVENT_SIZE + 1]; [encode(undefined)] encodes
    the empty string. *)
Definition estimateSize (v : jsval) : N :=
  match stringify_len v with
  | SLen n => n
  | SUndef => 0
  | SThrow => MAX_EVENT_SIZE + 1
  end.

(* ================================================================= *)
(** ** Event validation engine ([event-validators.ts])

    The [console.error] / [console.warn] diagnostics of development mode
    have no effect on the result and are left out. *)

Inductive ValidationMode : Type := production | development.

Record ValidationResult : Type := mkVR {
  valid : bool;
  event : option jsval;
  errors : list string;
  warnings : list string
}.

Definition invalid1 (msg : string) : ValidationResult := mkVR false None [msg] [].

(** *** Branded-value guards ([types/branded.ts]) *)

Definition isValidSessionId (v : jsval) : bool :=
  match v with JStr s => negb (String.eqb s EmptyString) | _ => false end.

Definition isValidLevelId (v : jsval) : bool :=
  match v with JStr s => negb (String.eqb s EmptyString) | _ => false end.

Definition isValidDifficulty (v : jsval) : bool :=
  match v with
  | JNum n => num_is_integer n && negb (num_lt n (js_int 1)) && negb (num_lt (js_int 10) n)
  | _ => false
  end.

Definition isValidDuration (v : jsval) : bool :=
  match v with
  | JNum n => num_is_integer n && negb (num_lt n (js_int 0))
  | _ => false
  end.

(** [list.includes(v as string)] *)
Definition includes (l : list string) (v : jsval) : bool :=
  match v with JStr s => existsb (String.eqb s) l | _ => false end.

(** [typeof v !== 'number' || v < 1] *)
Definition not_number_or_lt1 (v : jsval) : bool :=
  match v with JNum n => num_lt n (js_int 1) | _ => true end.

(** [errors.push(msg)] under a condition *)
Definition push_if (b : bool) (msg : string) (errs : list string) : list string :=
  if b then errs ++ [msg] else errs.

Definition one_of (what : string) (l : list string) : string :=
  (what ++ " must be one of: " ++ String.concat ", " l)%string.

(** Tail shared by the validators that never clean the event. *)
Definition finish (ev : jsval) (errs : list string) : ValidationResult :=
  match errs with
  | [] => mkVR true (Some ev) [] []
  | _ => mkVR false None errs []
  end.

(** *** Per-kind validators *)

Definition validateSessionStarted (o : props) : ValidationResult :=
  finish (JObj o)
    (push_if (negb (isValidSessionId (get o "sessionId")))
       "sessionId must be a non-empty string" []).

Definition sessionEndReasons : list string := ["completed"; "user_exit"; "timeout"]%string.

Definition validateSessionEnded (o : props) : ValidationResult :=
  let errs := push_if (negb (isValidSessionId (get o "sessionId")))
                "sessionId must be a non-empty string" [] in
  let errs := push_if (negb (includes sessionEndReasons (get o "reason")))
                (one_of "reason" sessionEndReasons) errs in
  let errs := push_if (negb (isValidDuration (get o "totalDurationMs")))
                "totalDurationMs must be a non-negative integer" errs in
  finish (JObj o) errs.

Definition sessionAbortReasons : list string :=
  ["crash"; "force_close"; "platform_termination"; "network_error"]%string.

Definition validateSessionAborted (o : props) : ValidationResult :=
  let errs := push_if (negb (isValidSessionId (get o "sessionId")))
                "sessionId must be a non-empty string" [] in
  let errs := push_if (negb (includes sessionAbortReasons (get o "reason")))
                (one_of "reason" sessionAbortReasons) errs in
  let errs := push_if (negb (isValidDuration (get o "durationBeforeAbortMs")))
                "durationBeforeAbortMs must be a non-negative integer" errs in
  finish (JObj o) errs.

Definition validateLevelStarted (o : props) : ValidationResult :=
  let errs := push_if (negb (isValidLevelId (get o "levelId")))
                "levelId must be a non-empty string" [] in
  let errs := push_if (not_number_or_lt1 (get o "attemptNumber"))
                "attemptNumber must be a positive integer" errs in
  let errs := push_if (negb (isValidDifficulty (get o "difficulty")))
                "difficulty must be an integer between 1 and 10" errs in
  finish (JObj o) errs.

Definition validateLevelCompleted (o : props) : ValidationResult :=
  let errs := push_if (negb (isValidLevelId (get o "levelId")))
                "levelId must be a non-empty string" [] in
  let errs := push_if (not_number_or_lt1 (get o "attemptNumber"))
                "attemptNumber must be a positive integer" errs in
  let errs := push_if (negb (isValidDuration (get o "durationMs")))
                "durationMs must be a non-negative integer" errs in
  let errs := push_if (negb (isValidDifficulty (get o "difficulty")))
                "difficulty must be an integer between 1 and 10" errs in
  finish (JObj o) errs.

Definition levelFailureReasons : list string :=
  ["timeout"; "too_many_errors"; "user_quit"; "other"]%string.

Definition validateLevelFailed (o : props) : ValidationResult :=
  let errs := push_if (negb (isValidLevelId (get o "levelId")))
                "levelId must be a non-empty string" [] in
  let errs := push_if (not_number_or_lt1 (get o "attemptNumber"))
                "attemptNumber must be a positive integer" errs in
  let errs := push_if (negb (isValidDuration (get o "durationMs")))
                "durationMs must be a non-negative integer" errs in
  let errs := push_if (negb (isValidDifficulty (get o "difficulty")))
                "difficulty must be an integer between 1 and 10" errs in
  let errs := match get o "failureReason" with
              | JUndefined => errs
              | r => push_if (negb (includes levelFailureReasons r))
                       (one_of "failureReason" levelFailureReasons) errs
              end in
  finish (JObj o) errs.

Definition validateCheckpointReached (o : props) : ValidationResult :=
  let errs := push_if (negb (isValidLevelId (get o "levelId")))
                "levelId must be a non-empty string" [] in
  let errs := push_if (match get o "checkpointId" with
                       | JStr s => String.eqb s EmptyString
                       | _ => true end)
                "checkpointId must be a non-empty string" errs in
  let errs := push_if (negb (isValidDuration (get o "elapsedMs")))
                "elapsedMs must be a non-negative integer" errs in
  finish (JObj o) errs.

(** *** Clamping helpers *)

(** [clampOptional(value, min, max)]: [undefined] unless [value] is a
    finite number. *)
Definition clampOptional (v : jsval) (lo hi : jsnum) : option (jsnum * bool) :=
  match v with
  | JNum n =>
      if num_is_finite n then
        let c := js_max lo (js_min hi n) in Some (c, negb (num_eq c n))
      else None
  | _ => None
  end.

(** [clampNonNegative(value)] *)
Definition clampNonNegative (v : jsval) : option (jsnum * bool) :=
  match v with
  | JNum n =>
      if num_is_finite n then
        let c := js_max (js_int 0) n in Some (c, negb (num_eq c n))
      else None
  | _ => None
  end.

(** Local state of the cleaning validators: [errors], [warnings] and
    [cleanedEvent]. *)
Record vstate : Type := mkVS {
  vs_errors : list string;
  vs_warnings : list string;
  vs_cleaned : props
}.

(** The block of [validatePerformanceReported] for a 0-1 field
    ([accuracy], [successRate]). *)
Definition clampUnitField (name : string) (o : props) (st : vstate) : vstate :=
  match get o name with
  | JUndefined => st
  | v =>
      match clampOptional v (js_int 0) (js_int 1) with
      | None => mkVS (vs_errors st ++ [name ++ " must be a number"]%string)
                     (vs_warnings st) (vs_cleaned st)
      | Some (c, clamped) =>
          mkVS (vs_errors st)
               (if clamped
                then vs_warnings st ++ [name ++ " clamped to " ++ num_to_string c]%string
                else vs_warnings st)
               (set_prop (vs_cleaned st) name (JNum c))
      end
  end.

(** The block of [validatePerformanceReported] for a non-negative field
    ([reactionTimeMs], [errorCount], [hintsUsed], [streakLength]). *)
Definition clampNonNegField (name : string) (o : props) (st : vstate) : vstate :=
  match get o name with
  | JUndefined => st
  | v =>
      match clampNonNegative v with
      | None => mkVS (vs_errors st ++ [name ++ " must be a number"]%string)
                     (vs_warnings st) (vs_cleaned st)
      | Some (c, _) => mkVS (vs_errors st) (vs_warnings st)
                            (set_prop (vs_cleaned st) name (JNum c))
      end
  end.

Definition validatePerformanceReported (o : props) : ValidationResult :=
  let st := mkVS [] [] o in
  let st := clampUnitField "accuracy" o st in
  let st := clampUnitField "successRate" o st in
  let st := clampNonNegField "reactionTimeMs" o st in
  let st := clampNonNegField "errorCount" o st in
  let st := clampNonNegField "hintsUsed" o st in
  let st := clampNonNegField "streakLength" o st in
  match vs_errors st with
  | [] => mkVR true (Some (JObj (vs_cleaned st))) [] (vs_warnings st)
  | errs => mkVR false None errs (vs_warnings st)
  end.

Definition validateActiveTimeReported (o : props) : ValidationResult :=
  let errs := push_if (negb (isValidDuration (get o "activeDurationMs")))
                "activeDurationMs must be a non-negative integer" [] in
  let errs := push_if (match get o "idleDurationMs" with
                       | JUndefined => false
                       | v => negb (isValidDuration v) end)
                "idleDurationMs must be a non-negative integer" errs in
  let errs := push_if (match get o "pausesCount" with
                       | JUndefined => false
                       | JNum n => num_lt n (js_int 0)
                       | _ => true end)
                "pausesCount must be a non-negative number" errs in
  finish (JObj o) errs.

Definition cognitiveLoadTypes : list string :=
  ["memory"; "focus"; "speed"; "regulation"; "planning"; "mixed"]%string.

Definition validateFrictionReported (o : props) : ValidationResult :=
  let errs := push_if (negb (isValidDifficulty (get o "claimedDifficulty")))
                "claimedDifficulty must be an integer between 1 and 10" [] in
  let errs := push_if (negb (includes cognitiveLoadTypes (get o "cognitiveLoadType")))
                (one_of "cognitiveLoadType" cognitiveLoadTypes) errs in
  finish (JObj o) errs.

Definition errorTypes : list string :=
  ["wrong_input"; "timeout"; "rule_violation";
   "missed_target"; "wrong_selection"; "sequence_break"]%string.

Definition validateErrorMade (o : props) : ValidationResult :=
  finish (JObj o)
    (push_if (negb (includes errorTypes (get o "errorType")))
       (one_of "errorType" errorTypes) []).

Definition failureTypes : list string :=
  ["error_threshold"; "time_expired"; "resource_depleted"; "invalid_state"]%string.

Definition validateFailureOccurred (o : props) : ValidationResult :=
  finish (JObj o)
    (push_if (negb (includes failureTypes (get o "failureType")))
       (one_of "failureType" failureTypes) []).

Definition validateSaveGameState (o : props) : ValidationResult :=
  let errs :=
    if has_prop o "stateBlob" then
      let blobSize := estimateSize (get o "stateBlob") in
      push_if (N.ltb MAX_STATE_BLOB_SIZE blobSize)
        ("stateBlob exceeds size limit (" ++ N_to_string blobSize ++ " > "
         ++ N_to_string MAX_STATE_BLOB_SIZE ++ ")")%string []
    else ["stateBlob is required"%string] in
  let errs := push_if (not_number_or_lt1 (get o "schemaVersion"))
                "schemaVersion must be a positive integer" errs in
  finish (JObj o) errs.

Definition signalTypes : list string :=
  ["felt_easy"; "felt_hard"; "felt_stressed"; "felt_calm";
   "wants_more"; "wants_stop"; "enjoying"; "frustrated"]%string.

Definition validateUserSignal (o : props) : ValidationResult :=
  let errs := push_if (negb (includes signalTypes (get o "signalType")))
                (one_of "signalType" signalTypes) [] in
  let st := mkVS errs [] o in
  let st :=
    match get o "value" with
    | JUndefined => st
    | v =>
        match clampOptional v (js_int 0) (js_int 1) with
        | None =>
            (* Not a number - just omit it, don't reject *)
            mkVS (vs_errors st) (vs_warnings st ++ ["value was not a valid number, omitted"%string])
                 (del_prop (vs_cleaned st) "value")
        | Some (c, clamped) =>
            mkVS (vs_errors st)
                 (if clamped
                  then vs_warnings st ++ ["value clamped to " ++ num_to_string c]%string
                  else vs_warnings st)
                 (set_prop (vs_cleaned st) "value" (JNum c))
        end
    end in
  match vs_errors st with
  | [] => mkVR true (Some (JObj (vs_cleaned st))) [] (vs_warnings st)
  | errs => mkVR false None errs (vs_warnings st)
  end.

Definition devLogLevels : list string := ["debug"; "info"; "warn"; "error"]%string.

Definition validateDevLog (o : props) : ValidationResult :=
  let errs := push_if (match get o "message" with JStr _ => false | _ => true end)
                "message must be a string" [] in
  let errs := match get o "level" with
              | JUndefined => errs
              | l => push_if (negb (includes devLogLevels l))
                       (one_of "level" devLogLevels) errs
              end in
  finish (JObj o) errs.

(** *** [validateEvent] *)

(** The [switch (eventType)] of [validateEvent]; [None] is its
    [default] branch. *)
Definition dispatch (eventType : string) (o : props) : option ValidationResult :=
  if String.eqb eventType "SESSION_STARTED" then Some (validateSessionStarted o)
  else if String.eqb eventType "SESSION_ENDED" then Some (validateSessionEnded o)
  else if String.eqb eventType "SESSION_ABORTED" then Some (validateSessionAborted o)
  else if String.eqb eventType "LEVEL_STARTED" then Some (validateLevelStarted o)
  else if String.eqb eventType "LEVEL_COMPLETED" then Some (validateLevelCompleted o)
  else if String.eqb eventType "LEVEL_FAILED" then Some (validateLevelFailed o)
  else if String.eqb eventType "CHECKPOINT_REACHED" then Some (validateCheckpointReached o)
  else if String.eqb eventType "PERFORMANCE_REPORTED" then Some (validatePerformanceReported o)
  else if String.eqb eventType "ACTIVE_TIME_REPORTED" then Some (validateActiveTimeReported o)
  else if String.eqb eventType "FRICTION_REPORTED" then Some (validateFrictionReported o)
  else if String.eqb eventType "ERROR_MADE" then Some (validateErrorMade o)
  else if String.eqb eventType "FAILURE_OCCURRED" then Some (validateFailureOccurred o)
  else if String.eqb eventType "SAVE_GAME_STATE" then Some (validateSaveGameState o)
  else if String.eqb eventType "USER_SIGNAL" then Some (validateUserSignal o)
  else if String.eqb eventType "DEV_LOG" then Some (validateDevLog o)
  else None.

(** The event tags of the [GameEvent] union. *)
Definition eventTags : list string :=
  ["SESSION_STARTED"; "SESSION_ENDED"; "SESSION_ABORTED"; "LEVEL_STARTED";
   "LEVEL_COMPLETED"; "LEVEL_FAILED"; "CHECKPOINT_REACHED"; "PERFORMANCE_REPORTED";
   "ACTIVE_TIME_REPORTED"; "FRICTION_REPORTED"; "ERROR_MADE"; "FAILURE_OCCURRED";
   "SAVE_GAME_STATE"; "USER_SIGNAL"; "DEV_LOG"]%string.

Definition validateEvent (ev : jsval) (mode : ValidationMode) : outcome ValidationResult :=
  match ev with
  | JObj o =>
      match get o "type" with
      | JStr eventType =>
          let eventSize := estimateSize ev in
          if N.ltb MAX_EVENT_SIZE eventSize then
            Ret (invalid1 ("Event exceeds size limit (" ++ N_to_string eventSize ++ " > "
                           ++ N_to_string MAX_EVENT_SIZE ++ ")")%string)
          else
            match dispatch eventType o with
            | Some r => Ret r
            | None =>
                match mode with
                | development => Throw (UnknownEventTypeError eventType)
                | production => Ret (invalid1 ("Unknown event type: " ++ eventType)%string)
                end
            end
      | _ => Ret (invalid1 "Event must have a string type field")
      end
  (* an array is an object without an own [type] property *)
  | JArr _ => Ret (invalid1 "Event must have a string type field")
  | _ => Ret (invalid1 "Event must be an object")
  end.

(* ================================================================= *)
(** ** Event emission pipeline ([createEventEmitter] in [theme/defaults.ts]) *)

Definition MAX_EVENTS_PER_SECOND : Z := 50.
Definition RATE_LIMIT_WINDOW_MS : Z := 1000.

(** The emitter's closure variables. *)
Record EmitterState : Type := mkES {
  eventCount : Z;
  droppedCount : Z;
  rateLimitWindowStart : Z;
  eventsInWindow : Z
}.

(** State right after [createEventEmitter], [now] being [Date.now()]. *)
Definition initEmitter (now : Z) : EmitterState := mkES 0 0 now 0.

Definition incDropped (s : EmitterState) : EmitterState :=
  mkES (eventCount s) (droppedCount s + 1) (rateLimitWindowStart s) (eventsInWindow s).

Definition incEventCount (s : EmitterState) : EmitterState :=
  mkES (eventCount s + 1) (droppedCount s) (rateLimitWindowStart s) (eventsInWindow s).

(** [checkRateLimit()], [now] being its [Date.now()] reading.
    Returns whether the event is allowed and the updated state. *)
Definition checkRateLimit (now : Z) (s : EmitterState) : bool * EmitterState :=
  let s :=
    if RATE_LIMIT_WINDOW_MS <=? now - rateLimitWindowStart s
    then mkES (eventCount s) (droppedCount s) now 0
    else s in
  if MAX_EVENTS_PER_SECOND <=? eventsInWindow s then (false, s)
  else (true, mkES (eventCount s) (droppedCount s) (rateLimitWindowStart s)
                   (eventsInWindow s + 1)).

Record EmittedEvent : Type := mkEE {
  ee_event : jsval;
  ee_timestamp : Z;
  ee_sessionId : option string;
  ee_gameId : string;
  ee_sdkVersion : string
}.

(** A host handler: it receives the enriched event and may throw. *)
Definition Handler : Type := EmittedEvent -> outcome unit.

Record EmitterConfig : Type := mkEC {
  gameId : string;
  sdkVersion : string;
  (** what the host's [getSessionId()] returns, or the exception it throws *)
  getSessionId : outcome (option string);
  mode : ValidationMode;
  handlers : list Handler
}.

(** [createTimestamp()] with [Date.now()] = [now] *)
Definition createTimestamp (now : Z) : outcome Z :=
  if now <? 0 then Throw (InvalidTimestampError now) else Ret now.

(** The property read [event.type]: a [TypeError] on [null] and
    [undefined], [undefined] on other primitives. *)
Definition read_type (ev : jsval) : outcome jsval :=
  match ev with
  | JUndefined | JNull => Throw (TypeError "Cannot read properties of null (reading 'type')")
  | JObj o => Ret (get o "type")
  | _ => Ret JUndefined
  end.

(** Whether [ToString(v)], as a template literal [`${v}`] applies it,
    returns or throws; the text itself is not needed.  A symbol throws a
    [TypeError].  An array is joined: [null] and [undefined] elements
    give the empty string, the others are converted in turn.  An object
    is converted by its [toString] method, inherited from
    [Object.prototype] when it has no own one; when its own [toString] is
    not callable, [valueOf] is tried, and the inherited one returns the
    object itself, which is not a primitive.  Guest functions are not
    modelled: a conversion that would call a method the guest put on the
    object is modelled as a throw ([GuestCodeError]). *)
Fixpoint js_to_string (v : jsval) : outcome unit :=
  match v with
  | JSym => Throw (TypeError "Cannot convert a Symbol value to a string")
  | JArr xs =>
      let fix join (xs : list jsval) : outcome unit :=
        match xs with
        | [] => Ret tt
        | (JUndefined | JNull) :: xs' => join xs'
        | x :: xs' =>
            match js_to_string x with
            | Throw e => Throw e
            | Ret _ => join xs'
            end
        end in
      join xs
  | JObj o =>
      match lookup o "toString" with
      | None => Ret tt
      | Some JFun => Throw GuestCodeError
      | Some _ =>
          match lookup o "valueOf" with
          | Some JFun => Throw GuestCodeError
          | _ => Throw (TypeError "Cannot convert object to primitive value")
          end
      end
  | _ => Ret tt
  end.

(** What one call of [emit] does: the state it leaves, the handler
    invocations it makes (handler index and argument), and whether it
    returns or throws. *)
Record EmitStep : Type := mkStep {
  es_state : EmitterState;
  es_delivered : list (nat * EmittedEvent);
  es_outcome : outcome unit
}.

(** [for (const handler of handlers) { try { handler(e) } catch { ... } }] *)
Fixpoint deliver (hs : list Handler) (i : nat) (ee : EmittedEvent) : list (nat * EmittedEvent) :=
  match hs with
  | [] => []
  | h :: hs' =>
      match h ee with
      | Ret _ => (i, ee) :: deliver hs' (S i) ee
      | Throw _ => (* contained; delivery continues *) (i, ee) :: deliver hs' (S i) ee
      end
  end.

Definition is_dev_log (t : jsval) : bool :=
  match t with JStr s => String.eqb s "DEV_LOG" | _ => false end.

(** [emit(event)]; [now] is the [Date.now()] read by [checkRateLimit],
    [now_ts] the one read by [createTimestamp()]. *)
Definition emit (cfg : EmitterConfig) (now now_ts : Z) (ev : jsval) (s0 : EmitterState)
  : EmitStep :=
  let '(allowed, s) := checkRateLimit now s0 in
  if negb allowed then
    let s := incDropped s in
    match mode cfg with
    | development =>
        (* the warning message interpolates [event.type] *)
        match read_type ev with
        | Throw x => mkStep s [] (Throw x)
        | Ret t =>
            match js_to_string t with
            | Throw x => mkStep s [] (Throw x)
            | Ret _ => mkStep s [] (Ret tt)
            end
        end
    | production => mkStep s [] (Ret tt)
    end
  else
    let skip :=
      match mode cfg with
      | production =>
          match read_type ev with
          | Throw x => Throw x
          | Ret t => Ret (is_dev_log t)
          end
      | development => Ret false
      end in
    match skip with
    | Throw x => mkStep s [] (Throw x)
    | Ret true => mkStep s [] (Ret tt)
    | Ret false =>
        match validateEvent ev (mode cfg) with
        | Throw _ => mkStep (incDropped s) [] (Ret tt)
        | Ret result =>
            if negb (valid result) then mkStep (incDropped s) [] (Ret tt)
            else
              (* [getSessionId()] runs outside any [try] *)
              match getSessionId cfg with
              | Throw x => mkStep s [] (Throw x)
              | Ret sessionId =>
                  match createTimestamp now_ts with
                  | Throw x => mkStep s [] (Throw x)
                  | Ret ts =>
                      let emitted :=
                        mkEE (match event result with Some e => e | None => ev end)
                             ts sessionId (gameId cfg) (sdkVersion cfg) in
                      mkStep (incEventCount s) (deliver (handlers cfg) 0 emitted) (Ret tt)
                  end
              end
        end
    end.

(** One call of [emit]: the two clock readings and the event. *)
Record Call : Type := mkCall {
  c_now : Z;
  c_now_ts : Z;
  c_event : jsval
}.

(** Runs calls of [emit] in order.  For each call it records the clock
    reading, the rate-limit window it was counted in and whether the
    rate limiter admitted it. *)
Fixpoint run_emits (cfg : EmitterConfig) (cs : list Call) (s : EmitterState)
  : list (Z * Z * bool) * EmitterState :=
  match cs with
  | [] => ([], s)
  | c :: cs' =>
      let '(admitted, s1) := checkRateLimit (c_now c) s in
      let st := emit cfg (c_now c) (c_now_ts c) (c_event c) s in
      let '(log, s') := run_emits cfg cs' (es_state st) in
      ((c_now c, rateLimitWindowStart s1, admitted) :: log, s')
  end.

(** Number of calls admitted by the rate limiter with a clock reading in
    [[t, t + 1000)]. *)
Definition admitted_between (t : Z) (log : list (Z * Z * bool)) : nat :=
  length (filter (fun '(tm, _, adm) => adm && (t <=? tm) && (tm <? t + RATE_LIMIT_WINDOW_MS)) log).

(** Number of calls admitted by the rate limiter in the window that
    started at [w]. *)
Definition admitted_in_window (w : Z) (log : list (Z * Z * bool)) : nat :=
  length (filter (fun '(_, ws, adm) => adm && (ws =? w)) log).

(* ================================================================= *)
(** ** Event lifecycle gate ([createGatedEmit] in [platform/eventGate.ts])

    The gate reads the context returned by [sessionDriver.getContext()];
    only its [state] and [sessionId] matter here.  The human-readable
    [reason] text passed to [onEventDropped] is not modelled, except that
    building it converts [event.type] to a string ([js_to_string]). *)

Inductive GateContext : Type :=
| GInitial
| GInSession (sessionId : string)
| GEnded (sessionId : string).

Inductive DropReasonCode : Type :=
| BEFORE_SESSION
| SESSION_ID_MISMATCH
| AFTER_SESSION_ENDED
| INVALID_STATE_FOR_EVENT.

(** What the gated emit does with the event. *)
Inductive GateEffect : Type :=
| PlatformEmit (ev : jsval)
| EventDropped (ev : jsval) (code : DropReasonCode).

Record GatedEmitOptions : Type := mkGO {
  (** [undefined] when the option is omitted *)
  allowDevLogAfterEnd : option bool
}.

(** [hasSessionId(event)]: the [in] operator throws a [TypeError] on a
    primitive (a symbol included); the field counts only when it holds a
    string. *)
Definition hasSessionId (ev : jsval) : outcome (option string) :=
  match ev with
  | JObj o => Ret (match get o "sessionId" with JStr s => Some s | _ => None end)
  | JArr _ | JFun => Ret None
  | _ => Throw (TypeError "Cannot use 'in' operator to search for 'sessionId'")
  end.

Definition gatedEmit (opts : GatedEmitOptions) (ctx : GateContext) (ev : jsval)
  : outcome GateEffect :=
  let allow := match allowDevLogAfterEnd opts with Some b => b | None => false end in
  match ctx with
  | GInitial =>
      match read_type ev with
      | Throw x => Throw x
      | Ret t =>
          if is_dev_log t then Ret (PlatformEmit ev)
          else match js_to_string t with
               | Throw x => Throw x
               | Ret _ => Ret (EventDropped ev BEFORE_SESSION)
               end
      end
  | GInSession ctxSessionId =>
      match hasSessionId ev with
      | Throw x => Throw x
      | Ret (Some sid) =>
          if String.eqb sid ctxSessionId then Ret (PlatformEmit ev)
          else Ret (EventDropped ev SESSION_ID_MISMATCH)
      | Ret None => Ret (PlatformEmit ev)
      end
  | GEnded _ =>
      match read_type ev with
      | Throw x => Throw x
      | Ret t =>
          if is_dev_log t && allow then Ret (PlatformEmit ev)
          else match js_to_string t with
               | Throw x => Throw x
               | Ret _ => Ret (EventDropped ev AFTER_SESSION_ENDED)
               end
      end
  end.

(* ================================================================= *)
(** ** Session driver ([createSessionDriver]) *)

Inductive SessionState : Type := INITIAL | IN_SESSION | ENDED.

Definition state_eqb (a b : SessionState) : bool :=
  match a, b with
  | INITIAL, INITIAL | IN_SESSION, IN_SESSION | ENDED, ENDED => true
  | _, _ => false
  end.

(** The frozen snapshot of [createContextSnapshot]; the static fields
    (metadata, preferences, progression) are left out. *)
Inductive GameContext : Type :=
| CtxInitial
| CtxInSession (sessionId : string) (startTime : Z)
| CtxEnded (sessionId : string) (sessionDurationMs : Z).

Definition ctx_state (c : GameContext) : SessionState :=
  match c with
  | CtxInitial => INITIAL
  | CtxInSession _ _ => IN_SESSION
  | CtxEnded _ _ => ENDED
  end.

(** A host call on the driver; transitions carry the value [nowMs()]
    returns during the call. *)
Inductive DriverCmd : Type :=
| StartSession (sid : string) (now : Z)
| EndSession (now : Z)
| AbortSession (now : Z)
| Subscribe (id : nat) (l : GameContext -> list DriverCmd * bool)
| Unsubscribe (id : nat).

(** A listener: given the snapshot, the driver calls it makes (in order)
    and whether it throws afterwards. *)
Definition Listener : Type := GameContext -> list DriverCmd * bool.

Record DriverState : Type := mkDS {
  currentState : SessionState;
  sessionId : option string;
  startTime : option Z;
  sessionDurationMs : option Z;
  (** the entry list of the [Set] of listeners, keyed by identity: as
      in ECMAScript, [add] appends an entry, [delete] empties it in place
      ([None]), and iteration walks the list by index *)
  listeners : list (option (nat * Listener))
}.

Definition initDriver : DriverState := mkDS INITIAL None None None [].

Definition createDuration (d : Z) : outcome Z :=
  if d <? 0 then Throw (InvalidDurationError d) else Ret d.

(** [createTimestamp(value)] with a value given *)
Definition createTimestampOf (v : Z) : outcome Z :=
  if v <? 0 then Throw (InvalidTimestampError v) else Ret v.

Definition createContextSnapshot (s : DriverState) : outcome GameContext :=
  match currentState s with
  | INITIAL => Ret CtxInitial
  | IN_SESSION =>
      match sessionId s, startTime s with
      | Some sid, Some st =>
          match createTimestampOf st with
          | Ret ts => Ret (CtxInSession sid ts)
          | Throw x => Throw x
          end
      | _, _ => Throw (SdkStateError "Invalid state: IN_SESSION without sessionId")
      end
  | ENDED =>
      match sessionId s, sessionDurationMs s with
      | Some sid, Some d =>
          match createDuration d with
          | Ret d' => Ret (CtxEnded sid d')
          | Throw x => Throw x
          end
      | _, _ => Throw (SdkStateError "Invalid state: ENDED without session data")
      end
  end.

(** Observations: each listener invocation, with the listener's id and
    the snapshot it received. *)
Definition DriverLog : Type := list (nat * GameContext).

Definition has_listener (ls : list (option (nat * Listener))) (id : nat) : bool :=
  existsb (fun e => match e with Some (id', _) => Nat.eqb id' id | None => false end) ls.

Definition endedState (s : DriverState) (now : Z) : DriverState :=
  mkDS ENDED (sessionId s) (startTime s)
       (Some (now - match startTime s with Some t => t | None => 0 end))
       (listeners s).

(** The driver as seen from inside a listener: [None] when the nesting
    bound is reached and the listener's calls are skipped. *)
Definition DriverCall : Type :=
  DriverCmd -> DriverState -> DriverLog -> DriverState * DriverLog * outcome unit.

(** A listener's own driver calls; the first throw ends the listener,
    and [notifyListeners] swallows it. *)
Fixpoint run_body (call : option DriverCall) (cs : list DriverCmd) (s : DriverState)
  (log : DriverLog) : DriverState * DriverLog :=
  match cs with
  | [] => (s, log)
  | c :: cs' =>
      match call with
      | None => (s, log)
      | Some f =>
          let '(s', log', r) := f c s log in
          match r with
          | Throw _ => (s', log')
          | Ret _ => run_body call cs' s' log'
          end
      end
  end.

(** [for (const listener of listeners) try { listener(ctx) } catch {}]:
    the Set iterator reads the live entry list at position [i], so a
    listener added during the loop is visited and one deleted before
    its turn is not.  [k] bounds the number of entries visited. *)
Fixpoint walk (call : option DriverCall) (ctx : GameContext) (k i : nat)
  (s : DriverState) (log : DriverLog) : DriverState * DriverLog :=
  match k with
  | O => (s, log)
  | S k' =>
      match nth_error (listeners s) i with
      | None => (s, log)
      | Some None => walk call ctx k' (S i) s log
      | Some (Some (id, l)) =>
          let '(s', log') := run_body call (fst (l ctx)) s (log ++ [(id, ctx)]) in
          walk call ctx k' (S i) s' log'
      end
  end.

(** [notifyListeners()]: the snapshot is taken once, before the loop.
    The JavaScript loop has no bound (a listener that adds a fresh
    listener on every call keeps it going); [nb] bounds the entries one
    notification visits, and the results below hold for every [nb] or
    say which [nb] reach the end of the entry list. *)
Definition notifyListeners (nb : nat) (call : option DriverCall) (s : DriverState)
  (log : DriverLog) : DriverState * DriverLog * outcome unit :=
  match createContextSnapshot s with
  | Throw x => (s, log, Throw x)
  | Ret ctx =>
      let '(s', log') := walk call ctx nb 0 s log in
      (s', log', Ret tt)
  end.

(** One driver call.  A listener may call the driver again while it is
    being notified; [fuel] bounds that nesting.  With no fuel left a
    listener is still invoked but its calls are skipped. *)
Fixpoint driver_call (nb fuel : nat) (c : DriverCmd) (s : DriverState) (log : DriverLog)
  : DriverState * DriverLog * outcome unit :=
  let call := match fuel with O => None | S f => Some (driver_call nb f) end in
  match c with
  | StartSession sid now =>
      match currentState s with
      | INITIAL =>
          notifyListeners nb call
            (mkDS IN_SESSION (Some sid) (Some now) (sessionDurationMs s) (listeners s)) log
      | _ => (s, log, Throw (SdkStateError "Cannot start session: already started"))
      end
  | EndSession now =>
      match currentState s with
      | IN_SESSION => notifyListeners nb call (endedState s now) log
      | _ => (s, log, Throw (SdkStateError "Cannot end session: not in session"))
      end
  | AbortSession now =>
      match currentState s with
      | IN_SESSION => notifyListeners nb call (endedState s now) log
      | _ => (s, log, Throw (SdkStateError "Cannot abort session: not in session"))
      end
  | Subscribe id l =>
      (* [listeners.add(listener)] *)
      if has_listener (listeners s) id then (s, log, Ret tt)
      else (mkDS (currentState s) (sessionId s) (startTime s) (sessionDurationMs s)
                 (listeners s ++ [Some (id, l)]), log, Ret tt)
  | Unsubscribe id =>
      (* [listeners.delete(listener)] *)
      (mkDS (currentState s) (sessionId s) (startTime s) (sessionDurationMs s)
            (map (fun e => match e with
                           | Some (id', _) => if Nat.eqb id' id then None else e
                           | None => None
                           end) (listeners s)), log, Ret tt)
  end.

(** Nesting bound for host calls.  Only a transition notifies, and a
    driver makes at most two transitions, so calls made from listeners
    are never skipped with this bound. *)
Definition driver_fuel : nat := 3.

(** Host calls in sequence; a throw is reported to the host, which goes on. *)
Fixpoint run_driver (nb : nat) (cs : list DriverCmd) (s : DriverState) (log : DriverLog)
  : DriverState * DriverLog :=
  match cs with
  | [] => (s, log)
  | c :: cs' =>
      let '(s', log', _) := driver_call nb driver_fuel c s log in
      run_driver nb cs' s' log'
  end.

(** The states listener [id] was notified with, in order. *)
Definition observed (id : nat) (log : DriverLog) : list SessionState :=
  map (fun p => ctx_state (snd p)) (filter (fun p => Nat.eqb (fst p) id) log).

(* ================================================================= *)
(** ** Capability guard ([createCapabilityGuard] in [core/capability-guard.ts]) *)

Record PermissionResult : Type := mkPR {
  granted : bool;
  reason : option string
}.

Record CapabilityResult (A : Type) : Type := mkCR {
  isAvailable : bool;
  api : A;
  unavailableReason : option string
}.
Arguments mkCR {A}.
Arguments isAvailable {A}.
Arguments api {A}.
Arguments unavailableReason {A}.

(** Host-supplied pieces; each may throw. *)
Record CapabilityGuardConfig (A : Type) : Type := mkCGC {
  declaredCapabilities : list string;
  checkPermission : option (string -> outcome PermissionResult);
  apiFactory : string -> outcome A;
  noOpApiFactory : string -> outcome A
}.
Arguments mkCGC {A}.
Arguments declaredCapabilities {A}.
Arguments checkPermission {A}.
Arguments apiFactory {A}.
Arguments noOpApiFactory {A}.

(** [defaultPermissionChecker] grants everything. *)
Definition defaultPermissionChecker (_ : string) : outcome PermissionResult :=
  Ret (mkPR true None).

(** [checkPermission = defaultPermissionChecker] in the destructuring *)
Definition checkPermissionOrDefault {A : Type} (config : CapabilityGuardConfig A)
  : string -> outcome PermissionResult :=
  match checkPermission config with
  | Some f => f
  | None => defaultPermissionChecker
  end.

Definition getCapability {A : Type} (config : CapabilityGuardConfig A) (capability : string)
  : outcome (CapabilityResult A) :=
  let check := checkPermissionOrDefault config in
  if negb (existsb (String.eqb capability) (declaredCapabilities config)) then
    Throw (CapabilityNotDeclaredError capability)
  else
    match check capability with
    | Throw x => Throw x
    | Ret permissionResult =>
        let real :=
          if granted permissionResult then
            match apiFactory config capability with
            | Ret a => Some a
            | Throw _ => None   (* degrade gracefully; fall through to no-op *)
            end
          else None in
        match real with
        | Some a => Ret (mkCR true a None)
        | None =>
            match noOpApiFactory config capability with
            | Throw _ =>
                Throw (SdkInternalError ("SDK internal error: cannot create no-op API for '"
                                         ++ capability ++ "'"))
            | Ret noOpApi =>
                let r := match reason permissionResult with
                         | Some r => r
                         | None => "internal_error"%string
                         end in
                Ret (mkCR false noOpApi (Some r))
            end
        end
    end.

(* ================================================================= *)
(** ** Predicates used by the properties *)

(** [rawEvent] is a non-null object, within the event size ceiling,
    whose [type] is a string that is not one of the event tags. *)
Definition unknown_tag_input (ev : jsval) : bool :=
  match ev with
  | JObj o =>
      match get o "type" with
      | JStr t => N.leb (estimateSize ev) MAX_EVENT_SIZE
                  && negb (existsb (String.eqb t) eventTags)
      | _ => false
      end
  | _ => false
  end.

(** [permissionResult.reason ?? 'internal_error'] *)
Definition reasonOrInternalError (pr : PermissionResult) : string :=
  match reason pr with Some r => r | None => "internal_error"%string end.

(** A guard whose permission checker cannot be reached. *)
Definition failingCheckerConfig : CapabilityGuardConfig unit :=
  mkCGC ["audio"%string] (Some (fun _ => Throw (HostError "permission service unavailable")))
        (fun _ => Ret tt) (fun _ => Ret tt).

(** A guard whose checker denies [audio] with a reason. *)
Definition denyingConfig : CapabilityGuardConfig unit :=
  mkCGC ["audio"%string] (Some (fun _ => Ret (mkPR false (Some "user_disabled"%string))))
        (fun _ => Ret tt) (fun _ => Ret tt).

(** A production emitter with no handlers. *)
Definition prodConfig : EmitterConfig :=
  mkEC "memory-match" "1.0.0" (Ret None) production [].

(** A development emitter whose first handler throws. *)
Definition devConfigThrowingHandler : EmitterConfig :=
  mkEC "memory-match" "1.0.0" (Ret (Some "s1"%string)) development
       [(fun _ => Throw (HostError "handler failed")); (fun _ => Ret tt)].

Definition levelStartedFields : props :=
  [("type", JStr "LEVEL_STARTED"); ("levelId", JStr "level-1");
   ("attemptNumber", JNum (js_int 1)); ("difficulty", JNum (js_int 3))]%string.

Definition levelStarted : jsval := JObj levelStartedFields.

Definition devLog : jsval :=
  JObj [("type", JStr "DEV_LOG"); ("message", JStr "tick")]%string.

(** 50 calls one millisecond before a window boundary, 50 right on it. *)
Definition burstCalls : list Call :=
  repeat (mkCall 999 999 levelStarted) 50 ++ repeat (mkCall 1000 1000 levelStarted) 50.

(** 50 development logs at the start of a window. *)
Definition devLogBurst : list Call := repeat (mkCall 0 0 devLog) 50.




(** A field that [clampOptional] / [clampNonNegative] accept or skip:
    absent, or a finite number. *)
Definition finite_or_absent (v : jsval) : bool :=
  match v with
  | JUndefined => true
  | JNum n => num_is_finite n
  | _ => false
  end.

Definition unitFields : list string := ["accuracy"; "successRate"]%string.

Definition nonNegFields : list string :=
  ["reactionTimeMs"; "errorCount"; "hintsUsed"; "streakLength"]%string.

Definition perfFields : list string := app unitFields nonNegFields.

(** [{type: 'PERFORMANCE_REPORTED', accuracy: Infinity}] *)
Definition perfAccuracyInfinity : props :=
  [("type", JStr "PERFORMANCE_REPORTED"); ("accuracy", JNum NPosInf)]%string.

(** [{type: 'PERFORMANCE_REPORTED', accuracy: 1.5, reactionTimeMs: -5}] *)
Definition perfOutOfRange : props :=
  [("type", JStr "PERFORMANCE_REPORTED"); ("accuracy", JNum (NFin 15 (-1)));
   ("reactionTimeMs", JNum (js_int (-5)))]%string.

(** [{type: 'PERFORMANCE_REPORTED', accuracy: 'high'}] *)
Definition perfAccuracyHigh : props :=
  [("type", JStr "PERFORMANCE_REPORTED"); ("accuracy", JStr "high")]%string.

(** [{type: 'USER_SIGNAL', signalType: 'felt_easy', value: 'x'}] *)
Definition userSignalText : props :=
  [("type", JStr "USER_SIGNAL"); ("signalType", JStr "felt_easy"); ("value", JStr "x")]%string.

(** [{type: 'USER_SIGNAL', signalType: 'felt_hard', value: 3}] *)
Definition userSignalHigh : props :=
  [("type", JStr "USER_SIGNAL"); ("signalType", JStr "felt_hard");
   ("value", JNum (js_int 3))]%string.

(** A listener that makes no driver call. *)
Definition quiet_cmd (c : DriverCmd) : Prop :=
  match c with
  | Subscribe _ l => forall ctx, fst (l ctx) = []
  | _ => True
  end.

Definition quietListener : Listener := fun _ => ([], false).

(** A listener that ends the session as soon as it sees it start. *)
Definition enderListener : Listener :=
  fun ctx => match ctx with
             | CtxInSession _ _ => ([EndSession 10], false)
             | _ => ([], false)
             end.

Definition reentrantRun : list DriverCmd :=
  [Subscribe 0 enderListener; Subscribe 1 quietListener; StartSession "s1" 0]%string.

Definition quietRun : list DriverCmd :=
  [Subscribe 0 quietListener; StartSession "s1" 5; Subscribe 1 quietListener;
   StartSession "s2" 6; EndSession 20; AbortSession 30]%string.

(** The ids of the listeners present in a [Set] entry list. *)
Definition live_ids (ls : list (option (nat * Listener))) : list nat :=
  flat_map (fun e => match e with Some (id, _) => [id] | None => [] end) ls.

(** The observation sequences allowed once the driver is in state [st]. *)
Definition allowed_obs (st : SessionState) : list (list SessionState) :=
  match st with
  | INITIAL => [[]]
  | IN_SESSION => [[]; [IN_SESSION]]
  | ENDED => [[]; [IN_SESSION]; [ENDED]; [IN_SESSION; ENDED]]
  end.

(** A listener entry whose listener makes no driver call. *)
Definition quiet_entry (e : option (nat * Listener)) : Prop :=
  match e with
  | Some (_, l) => forall ctx, fst (l ctx) = []
  | None => True
  end.

(** What stays true along a run of the driver with quiet listeners:
    the listeners are quiet, present at most once each, and what each
    has observed fits the current state. *)
Definition driver_inv (s : DriverState) (log : DriverLog) : Prop :=
  Forall quiet_entry (listeners s) /\ NoDup (live_ids (listeners s)) /\
  forall id, In (observed id log) (allowed_obs (currentState s)).

(* ================================================================= *)
(** ** Further definitions: validation, emission, driver *)

Open Scope string_scope.














(** [resetRateLimiter()], [now] being its [Date.now()] reading. *)
Definition resetRateLimiter (now : Z) (s : EmitterState) : EmitterState :=
  mkES (eventCount s) (droppedCount s) now 0.

(** The rate limiter's verdicts in a [run_emits] log. *)
Definition admitted_flags (log : list (Z * Z * bool)) : list bool :=
  map (fun '(_, _, adm) => adm) log.

(** [getContext()] *)
Definition getContext (s : DriverState) : outcome GameContext := createContextSnapshot s.

(** [isSessionActive()] *)
Definition isSessionActive (s : DriverState) : bool := state_eqb (currentState s) IN_SESSION.

(** The part of the driver's context the gate reads. *)
Definition gate_context (c : GameContext) : GateContext :=
  match c with
  | CtxInitial => GInitial
  | CtxInSession sid _ => GInSession sid
  | CtxEnded sid _ => GEnded sid
  end.

(** The gated emit [renderGame] builds: [createGatedEmit] over
    [sessionDriver.getContext()], with [allowDevLogAfterEnd: true]. *)
Definition renderGatedEmit (s : DriverState) (ev : jsval) : outcome GateEffect :=
  match getContext s with
  | Throw x => Throw x
  | Ret ctx => gatedEmit (mkGO (Some true)) (gate_context ctx) ev
  end.

(** A driver in session ["s1"] started at time 100. *)
Definition inSession100 : DriverState := mkDS IN_SESSION (Some "s1") (Some 100) None [].

(* ================================================================= *)
(** ** Game registration ([createGame] in [core/capability-guard.ts],
    [validateMetadata] in [types/metadata.ts]) *)

(** Character classes of the two regular expressions (no [u] flag:
    [\d] is [0-9]). *)
Definition in_range (lo hi : ascii) (c : ascii) : bool :=
  Nat.leb (nat_of_ascii lo) (nat_of_ascii c) && Nat.leb (nat_of_ascii c) (nat_of_ascii hi).

Definition is_lower (c : ascii) : bool := in_range "a" "z" c.

Definition is_digit (c : ascii) : bool := in_range "0" "9" c.

Definition is_alnum (c : ascii) : bool := is_lower c || in_range "A" "Z" c || is_digit c.

(** [[a-z0-9-]*[a-z0-9]$] *)
Fixpoint id_tail (s : string) : bool :=
  match s with
  | EmptyString => false
  | String c EmptyString => is_lower c || is_digit c
  | String c r => (is_lower c || is_digit c || Ascii.eqb c "-") && id_tail r
  end.

(** [/^[a-z][a-z0-9-]*[a-z0-9]$/.test(s)] *)
Definition id_pattern (s : string) : bool :=
  match s with
  | String c r => is_lower c && id_tail r
  | EmptyString => false
  end.

(** Greedy [\d+] prefix: number of digits and the rest. *)
Fixpoint span_digits (s : string) : nat * string :=
  match s with
  | String c r =>
      if is_digit c then let '(n, r') := span_digits r in (S n, r') else (O, s)
  | EmptyString => (O, EmptyString)
  end.

(** [(-[a-zA-Z0-9.]+)?$] *)
Definition prerelease_ok (s : string) : bool :=
  match s with
  | EmptyString => true
  | String c p =>
      Ascii.eqb c "-" &&
      match p with
      | EmptyString => false
      | _ => forallb (fun c => is_alnum c || Ascii.eqb c ".") (list_ascii_of_string p)
      end
  end.

(** [/^\d+\.\d+\.\d+(-[a-zA-Z0-9.]+)?$/.test(s)].  A digit never
    matches [\.], [-] or the end, so the greedy [\d+] never has to give
    a digit back. *)
Definition semver_pattern (s : string) : bool :=
  let '(n1, r1) := span_digits s in
  Nat.ltb 0 n1 &&
  match r1 with
  | String c1 s2 =>
      Ascii.eqb c1 "." &&
      let '(n2, r2) := span_digits s2 in
      Nat.ltb 0 n2 &&
      match r2 with
      | String c2 s3 =>
          Ascii.eqb c2 "." &&
          let '(n3, r3) := span_digits s3 in
          Nat.ltb 0 n3 && prerelease_ok r3
      | EmptyString => false
      end
  | EmptyString => false
  end.

Definition VALID_CATEGORIES : list string :=
  ["focus"; "memory"; "speed"; "regulation"; "planning"].

Definition VALID_CAPABILITIES : list string :=
  ["audio"; "haptics"; "timers"; "sensors"; "animations"].

(** [new InvalidMetadataError(field, reason)]; the two list checks build
    their reason from [String(item)], so they keep the item itself. *)
Inductive MetadataError : Type :=
| InvalidMetadataError (field : string) (reason : string)
| InvalidMetadataItem (field : string) (item : jsval).

(** [x <= y] on numbers *)
Definition num_le (a b : jsnum) : bool := num_lt a b || num_eq a b.

(** [for (const x of xs) if (!valid.includes(x)) throw ...] *)
Fixpoint first_not_included (valid : list string) (xs : list jsval) : option jsval :=
  match xs with
  | [] => None
  | x :: xs' => if includes valid x then first_not_included valid xs' else Some x
  end.

(** [validateMetadata(metadata)]: [None] when it returns, [Some e] when
    it throws [e].  An array passes the [typeof] test and then has no
    [id] property. *)
Definition validateMetadata (metadata : jsval) : option MetadataError :=
  match metadata with
  | JObj m =>
      match get m "id" with
      | JStr id =>
          if Nat.eqb (String.length id) 0 then
            Some (InvalidMetadataError "id" "Must be a non-empty string")
          else if negb (id_pattern id) && Nat.ltb 1 (String.length id) then
            Some (InvalidMetadataError "id"
                    "Must be lowercase alphanumeric with hyphens, starting with a letter")
          else
          match get m "name" with
          | JStr name =>
              if Nat.eqb (String.length name) 0 then
                Some (InvalidMetadataError "name" "Must be a non-empty string")
              else
              match get m "version" with
              | JStr version =>
                  if negb (semver_pattern version) then
                    Some (InvalidMetadataError "version"
                            "Must be valid semver format (e.g., 1.0.0 or 1.0.0-beta.1)")
                  else
                  match get m "categories" with
                  | JArr (_ :: _ as cats) =>
                      match first_not_included VALID_CATEGORIES cats with
                      | Some c => Some (InvalidMetadataItem "categories" c)
                      | None =>
                          match get m "recommendedSessionDurationMs" with
                          | JNum d =>
                              if negb (num_is_integer d) || num_le d (js_int 0) then
                                Some (InvalidMetadataError "recommendedSessionDurationMs"
                                        "Must be a positive integer (milliseconds)")
                              else
                              match get m "capabilities" with
                              | JArr caps =>
                                  match first_not_included VALID_CAPABILITIES caps with
                                  | Some c => Some (InvalidMetadataItem "capabilities" c)
                                  | None =>
                                      match get m "stateSchemaVersion" with
                                      | JNum v =>
                                          if negb (num_is_integer v) || num_lt v (js_int 1)
                                          then Some (InvalidMetadataError "stateSchemaVersion"
                                                       "Must be a positive integer >= 1")
                                          else None
                                      | _ => Some (InvalidMetadataError "stateSchemaVersion"
                                                     "Must be a positive integer >= 1")
                                      end
                                  end
                              | _ => Some (InvalidMetadataError "capabilities" "Must be an array")
                              end
                          | _ => Some (InvalidMetadataError "recommendedSessionDurationMs"
                                         "Must be a positive integer (milliseconds)")
                          end
                      end
                  | _ => Some (InvalidMetadataError "categories" "Must be a non-empty array")
                  end
              | _ => Some (InvalidMetadataError "version" "Must be a string")
              end
          | _ => Some (InvalidMetadataError "name" "Must be a non-empty string")
          end
      | _ => Some (InvalidMetadataError "id" "Must be a non-empty string")
      end
  | JArr _ => Some (InvalidMetadataError "id" "Must be a non-empty string")
  | _ => Some (InvalidMetadataError "root" "Metadata must be an object")
  end.

(** The [details] argument of [GameRegistrationError]. *)
Inductive RegDetails : Type :=
| DetMetadata (cause : MetadataError)               (* [error.message] *)
| DetDeclared (declared : list string)               (* [{ declared }] *)
| DetDeclaredMetadata (declared : list string) (metadata : list jsval)
| DetProvided (typeof_render : string).             (* [{ provided: typeof render }] *)

(** [new GameRegistrationError(reason, details)] *)
Inductive RegError : Type :=
| GameRegistrationError (reason : string) (details : RegDetails).

(** [typeof config.render]: a function, or a value of another type. *)
Inductive RenderArg : Type :=
| RenderComponent
| RenderNotFunction (typeof_render : string).

Record GameConfig : Type := mkGameConfig {
  cfg_metadata : jsval;
  cfg_capabilities : list string;
  cfg_render : RenderArg
}.

Record GameRegistration : Type := mkGameRegistration {
  reg_metadata : props;
  reg_capabilities : list string;
  reg_render : RenderArg;
  reg_sdkVersion : string
}.

Definition SDK_VERSION : string := "0.1.0".

(** [metadataSet.has(cap)] *)
Definition set_has_str (xs : list jsval) (cap : string) : bool :=
  existsb (fun x => match x with JStr c => String.eqb c cap | _ => false end) xs.

(** [validateCapabilities(declared, metadata)]: [None] when it returns.
    [new Set(declared).size] is the number of distinct names. *)
Definition validateCapabilities (declared : list string) (metadata : list jsval)
  : option RegError :=
  if negb (Nat.eqb (length (nodup string_dec declared)) (length declared)) then
    Some (GameRegistrationError "Duplicate capabilities declared" (DetDeclared declared))
  else
    match find (fun cap => negb (set_has_str metadata cap)) declared with
    | Some cap =>
        Some (GameRegistrationError
                ("Capability '" ++ cap ++ "' declared but not in metadata.capabilities")
                (DetDeclaredMetadata declared metadata))
    | None => None
    end.

(** [config.metadata.capabilities] once [validateMetadata] has passed *)
Definition metadata_capabilities (m : props) : list jsval :=
  match get m "capabilities" with JArr xs => xs | _ => [] end.

(** [createGame(config)] *)
Definition createGame (config : GameConfig) : RegError + GameRegistration :=
  match validateMetadata (cfg_metadata config) with
  | Some e => inl (GameRegistrationError "Invalid metadata" (DetMetadata e))
  | None =>
      match cfg_metadata config with
      | JObj m =>
          match validateCapabilities (cfg_capabilities config) (metadata_capabilities m) with
          | Some e => inl e
          | None =>
              match cfg_render config with
              | RenderNotFunction t =>
                  inl (GameRegistrationError "render must be a React component" (DetProvided t))
              | RenderComponent =>
                  inr (mkGameRegistration m (cfg_capabilities config) RenderComponent
                         SDK_VERSION)
              end
          end
      | _ => inl (GameRegistrationError "Invalid metadata" (DetMetadata
                    (InvalidMetadataError "root" "Metadata must be an object")))
      end
  end.

(** The registration object as a JavaScript value. *)
Definition registration_value (r : GameRegistration) : jsval :=
  JObj [("metadata", JObj (reg_metadata r));
        ("capabilities", JArr (map JStr (reg_capabilities r)));
        ("render", JFun);
        ("sdkVersion", JStr (reg_sdkVersion r))].

(** [isGameRegistration(value)] *)
Definition isGameRegistration (value : jsval) : bool :=
  match value with
  | JObj o =>
      has_prop o "metadata" && has_prop o "capabilities" && has_prop o "render"
      && has_prop o "sdkVersion"
  | _ => false
  end.

(** A metadata object in the style of the [createGame] example. *)
Definition memoryMatchMetadata (id : string) (caps : list string) : props :=
  [("id", JStr id); ("name", JStr "Memory Match"); ("version", JStr "1.0.0");
   ("categories", JArr [JStr "memory"]);
   ("recommendedSessionDurationMs", JNum (js_int 300000));
   ("capabilities", JArr (map JStr caps));
   ("stateSchemaVersion", JNum (js_int 1))].

(** Case-splits every [match] of hypothesis [H], dropping impossible cases. *)
Ltac split_matches H :=
  repeat (match type of H with
          | context [match ?x with _ => _ end] => destruct x eqn:?
          end; try discriminate H).

(** The config of the [createGame] example. *)
Definition memoryMatchConfig : GameConfig :=
  mkGameConfig (JObj (memoryMatchMetadata "memory-match" ["animations"; "haptics"]))
               ["animations"; "haptics"] RenderComponent.

(* ================================================================= *)
(** ** Event inspector ([createEventInspector] in [dev/event-inspector.ts]) *)

Record CapturedEvent : Type := mkCaptured {
  ce_event : option EmittedEvent;
  ce_rawEvent : jsval;
  ce_validation : ValidationResult;
  ce_capturedAt : Z;          (* [new Date()], as epoch milliseconds *)
  ce_index : nat
}.

(** An inspector listener: it receives the capture and may throw.
    Listeners here do not call back into the inspector. *)
Definition InspectorListener : Type := CapturedEvent -> outcome unit.

(** The inspector's closure variables. *)
Record InspectorState : Type := mkInspector {
  history : list CapturedEvent;
  inspectorListeners : list InspectorListener;
  eventIndex : nat
}.

(** What one call does: the state it leaves, the listener invocations it
    makes (listener index and argument), and whether it returns. *)
Record InspectStep : Type := mkInspectStep {
  is_state : InspectorState;
  is_notified : list (nat * CapturedEvent);
  is_outcome : outcome unit
}.

(** [for (const listener of listeners) { try { listener(c) } catch { } }] *)
Fixpoint notifyInspectorListeners (ls : list InspectorListener) (i : nat) (c : CapturedEvent)
  : list (nat * CapturedEvent) :=
  match ls with
  | [] => []
  | l :: ls' =>
      match l c with
      | Ret _ => (i, c) :: notifyInspectorListeners ls' (S i) c
      | Throw _ => (* ignored *) (i, c) :: notifyInspectorListeners ls' (S i) c
      end
  end.

(** [captureRaw(rawEvent)], [now] being the capture time.  The console
    group label interpolates [rawEvent.type] ([read_type], then
    [js_to_string]); the other console output has no effect on the
    state. *)
Definition captureRaw (now : Z) (rawEvent : jsval) (st : InspectorState) : InspectStep :=
  match validateEvent rawEvent development with
  | Throw x => mkInspectStep st [] (Throw x)
  | Ret validation =>
      let captured := mkCaptured None rawEvent validation now (eventIndex st) in
      let st' := mkInspector (history st ++ [captured])%list (inspectorListeners st)
                             (S (eventIndex st)) in
      let notified := notifyInspectorListeners (inspectorListeners st) 0 captured in
      match read_type rawEvent with
      | Throw x => mkInspectStep st' notified (Throw x)
      | Ret t =>
          match js_to_string t with
          | Throw x => mkInspectStep st' notified (Throw x)
          | Ret _ => mkInspectStep st' notified (Ret tt)
          end
      end
  end.

(** [createEventInspector()] *)
Definition initInspector : InspectorState := mkInspector [] [] 0.

(** An inspector with one listener that throws. *)
Definition throwingListenerInspector : InspectorState :=
  mkInspector [] [fun _ => Throw (HostError "listener failed")] 0.

(* ================================================================= *)
(** * Properties *)

Open Scope string_scope.

(** ** Helper lemmas *)

Lemma is_dev_log_spec : forall t, is_dev_log t = true <-> t = JStr "DEV_LOG".
Proof.
  intros t; destruct t; simpl; split; intro H; try discriminate; try congruence.
  - apply String.eqb_eq in H; subst; reflexivity.
  - injection H as ->; apply String.eqb_refl.
Qed.

Lemma is_dev_log_false : forall t, t <> JStr "DEV_LOG" -> is_dev_log t = false.
Proof.
  intros t H; destruct (is_dev_log t) eqn:E; [|reflexivity].
  apply is_dev_log_spec in E; contradiction.
Qed.

(** ** C2: the lifecycle gate *)

(** Claim C2 fails as stated: in IN_SESSION an event whose [sessionId]
    field holds a number that differs from the active session id is
    forwarded, not dropped with SESSION_ID_MISMATCH. *)
Lemma gate_nonstring_sessionId_forwarded :
  let ev := JObj [("type", JStr "LEVEL_STARTED"); ("sessionId", JNum (js_int 5))] in
  has_prop [("type", JStr "LEVEL_STARTED"); ("sessionId", JNum (js_int 5))] "sessionId" = true /\
  get [("type", JStr "LEVEL_STARTED"); ("sessionId", JNum (js_int 5))] "sessionId" <> JStr "s1" /\
  gatedEmit (mkGO None) (GInSession "s1") ev = Ret (PlatformEmit ev).
Proof. simpl. split; [reflexivity | split; [discriminate | reflexivity]]. Qed.

(** Building the drop reason converts [event.type] to a string: a
    Symbol type makes the gated emit throw a [TypeError] in INITIAL (and
    likewise in ENDED) instead of dropping the event. *)
Lemma gate_symbol_type_throws :
  gatedEmit (mkGO None) GInitial (JObj [("type", JSym)])
  = Throw (TypeError "Cannot convert a Symbol value to a string") /\
  gatedEmit (mkGO None) (GEnded "s1") (JObj [("type", JSym)])
  = Throw (TypeError "Cannot convert a Symbol value to a string").
Proof. split; reflexivity. Qed.

(** C2 (amended): for an event object, the gated emit is a function of
    the context and the event: in INITIAL it forwards exactly DEV_LOG and
    drops the rest with BEFORE_SESSION; in IN_SESSION an event whose
    [sessionId] is a string is dropped with SESSION_ID_MISMATCH exactly
    when it differs from the active id, and every other event (same id,
    no [sessionId], or a non-string one) is forwarded; in ENDED everything
    is dropped with AFTER_SESSION_ENDED except DEV_LOG when
    [allowDevLogAfterEnd] is true (omitted means false).  The two drops
    need the event's [type] to convert to a string, as the drop reason
    interpolates it (a Symbol does not). *)
Theorem gate_rules : forall (opts : GatedEmitOptions) (o : props),
  (get o "type" = JStr "DEV_LOG" ->
     gatedEmit opts GInitial (JObj o) = Ret (PlatformEmit (JObj o))) /\
  (get o "type" <> JStr "DEV_LOG" -> js_to_string (get o "type") = Ret tt ->
     gatedEmit opts GInitial (JObj o) = Ret (EventDropped (JObj o) BEFORE_SESSION)) /\
  (forall ctxSid sid, get o "sessionId" = JStr sid ->
     (gatedEmit opts (GInSession ctxSid) (JObj o)
        = Ret (EventDropped (JObj o) SESSION_ID_MISMATCH) <-> sid <> ctxSid) /\
     (sid = ctxSid -> gatedEmit opts (GInSession ctxSid) (JObj o) = Ret (PlatformEmit (JObj o)))) /\
  (forall ctxSid, (forall sid, get o "sessionId" <> JStr sid) ->
     gatedEmit opts (GInSession ctxSid) (JObj o) = Ret (PlatformEmit (JObj o))) /\
  (forall endedSid, get o "type" = JStr "DEV_LOG" -> allowDevLogAfterEnd opts = Some true ->
     gatedEmit opts (GEnded endedSid) (JObj o) = Ret (PlatformEmit (JObj o))) /\
  (forall endedSid, (get o "type" <> JStr "DEV_LOG" \/ allowDevLogAfterEnd opts <> Some true) ->
     js_to_string (get o "type") = Ret tt ->
     gatedEmit opts (GEnded endedSid) (JObj o) = Ret (EventDropped (JObj o) AFTER_SESSION_ENDED)).
Proof.
  intros opts o. unfold gatedEmit; simpl.
  split; [intros H; rewrite H; reflexivity|].
  split; [intros H Hc; rewrite (is_dev_log_false _ H), Hc; reflexivity|].
  split.
  { intros ctxSid sid H; rewrite H. split; [split|].
    - destruct (String.eqb sid ctxSid) eqn:E; [discriminate|].
      intros _ ->; rewrite String.eqb_refl in E; discriminate.
    - intros Hne.
      destruct (String.eqb sid ctxSid) eqn:E; [|reflexivity].
      apply String.eqb_eq in E; contradiction.
    - intros ->; rewrite String.eqb_refl; reflexivity. }
  split.
  { intros ctxSid H.
    destruct (get o "sessionId") eqn:E; try reflexivity.
    exfalso; exact (H s eq_refl). }
  split.
  { intros endedSid Ht Ha; rewrite Ht, Ha; reflexivity. }
  { intros endedSid H Hc.
    destruct (is_dev_log (get o "type")) eqn:Et; [|rewrite Hc; reflexivity].
    apply is_dev_log_spec in Et.
    destruct (allowDevLogAfterEnd opts) as [[|]|] eqn:Ea; simpl; try (rewrite Hc; reflexivity).
    destruct H as [H|H]; contradiction. }
Qed.

(** Witness for [gate_rules]: a mismatching session id is dropped. *)
Lemma gate_rules_witness :
  get [("type", JStr "LEVEL_STARTED"); ("sessionId", JStr "s2")] "sessionId" = JStr "s2" /\
  gatedEmit (mkGO None) (GInSession "s1")
    (JObj [("type", JStr "LEVEL_STARTED"); ("sessionId", JStr "s2")])
  = Ret (EventDropped (JObj [("type", JStr "LEVEL_STARTED"); ("sessionId", JStr "s2")])
                      SESSION_ID_MISMATCH).
Proof.
  split; [reflexivity|].
  destruct (gate_rules (mkGO None) [("type", JStr "LEVEL_STARTED"); ("sessionId", JStr "s2")])
    as [_ [_ [H _]]].
  apply (proj2 (proj1 (H "s1" "s2" eq_refl))).
  discriminate.
Defined.

(** ** C8: when [validateEvent] throws *)

Lemma dispatch_none : forall t o,
  dispatch t o = None <-> existsb (String.eqb t) eventTags = false.
Proof.
  intros t o. unfold dispatch, eventTags. simpl existsb.
  repeat (match goal with
          | |- context [String.eqb t ?x] => destruct (String.eqb t x); [simpl; split; congruence|]
          end; simpl).
  split; congruence.
Qed.
(** C8: [validateEvent rawEvent mode] throws exactly when [mode] is
    development and [rawEvent] is a non-null object within the size
    ceiling whose string [type] is not a recognized tag; for such an
    input production mode returns [valid:false]; every other call
    returns a result. *)
Theorem validateEvent_throws_iff : forall (ev : jsval) (mode : ValidationMode),
  (is_throw (validateEvent ev mode) = true <->
     mode = development /\ unknown_tag_input ev = true) /\
  (unknown_tag_input ev = true ->
     exists r, validateEvent ev production = Ret r /\ valid r = false).
Proof.
  intros ev mode.
  destruct ev as [| | | | | | | | | o]; unfold validateEvent, unknown_tag_input;
    try (split; [split; [discriminate | intros [_ H]; discriminate] | discriminate]).
  destruct (get o "type") as [| | | |t| | | | |] eqn:Et;
    try (split; [split; [discriminate | intros [_ H]; discriminate] | discriminate]).
  cbv zeta.
  rewrite N.leb_antisym.
  destruct (N.ltb MAX_EVENT_SIZE (estimateSize (JObj o))) eqn:Es.
  - split; [split; [discriminate | intros [_ H]; discriminate] | discriminate].
  - destruct (dispatch t o) eqn:Ed.
    + assert (Ex : existsb (String.eqb t) eventTags = true).
      { destruct (existsb (String.eqb t) eventTags) eqn:E; [reflexivity|].
        apply (proj2 (dispatch_none t o)) in E; congruence. }
      rewrite Ex.
      split; [split; [intros H; destruct mode; discriminate | intros [_ H]; discriminate]
             | discriminate].
    + apply (proj1 (dispatch_none t o)) in Ed. rewrite Ed.
      split.
      * destruct mode; simpl; split; try discriminate; auto.
        intros [H _]; discriminate.
      * intros _. eexists; split; [reflexivity | reflexivity].
Qed.

(** Witness for [validateEvent_throws_iff]: an unknown tag. *)
Lemma validateEvent_throws_iff_witness :
  unknown_tag_input (JObj [("type", JStr "LEVEL_SKIPPED")]) = true /\
  is_throw (validateEvent (JObj [("type", JStr "LEVEL_SKIPPED")]) development) = true /\
  (exists r, validateEvent (JObj [("type", JStr "LEVEL_SKIPPED")]) production = Ret r
             /\ valid r = false).
Proof.
  assert (H : unknown_tag_input (JObj [("type", JStr "LEVEL_SKIPPED")]) = true)
    by (vm_compute; reflexivity).
  split; [exact H|].
  destruct (validateEvent_throws_iff (JObj [("type", JStr "LEVEL_SKIPPED")]) development)
    as [Hi Hp].
  split; [apply Hi; split; [reflexivity | exact H] | apply Hp; exact H].
Defined.

(** ** C9: the capability guard *)

Lemma existsb_eqb_In : forall (x : string) l, existsb (String.eqb x) l = true <-> In x l.
Proof.
  intros x l. rewrite existsb_exists. split.
  - intros [y [Hy E]]. apply String.eqb_eq in E. subst; exact Hy.
  - intros H. exists x. split; [exact H | apply String.eqb_refl].
Qed.

(** Claim C9 fails as stated: for a declared capability whose no-op
    factory works, [getCapability] still throws when the host's
    permission checker throws, since that call is not wrapped. *)
Lemma getCapability_checker_throw :
  In "audio" (declaredCapabilities failingCheckerConfig) /\
  noOpApiFactory failingCheckerConfig "audio" = Ret tt /\
  getCapability failingCheckerConfig "audio" = Throw (HostError "permission service unavailable").
Proof. split; [left; reflexivity | split; reflexivity]. Qed.

(** C9 (amended): when the permission checker returns normally,
    [getCapability] throws [CapabilityNotDeclaredError] exactly when the
    name is not declared; for a declared name that is denied, or whose
    real-API factory throws, it returns the no-op API with
    [isAvailable:false] and [unavailableReason] set to the checker's
    reason, or ['internal_error'] when the checker gave none; for a
    declared name it throws only when the no-op factory throws. *)
Theorem getCapability_contract : forall {A : Type} (config : CapabilityGuardConfig A)
    (capability : string) (pr : PermissionResult),
  checkPermissionOrDefault config capability = Ret pr ->
  ((exists c, getCapability config capability = Throw (CapabilityNotDeclaredError c)) <->
     ~ In capability (declaredCapabilities config)) /\
  (In capability (declaredCapabilities config) ->
     (granted pr = false \/ exists x, apiFactory config capability = Throw x) ->
     forall noOpApi, noOpApiFactory config capability = Ret noOpApi ->
     getCapability config capability
       = Ret (mkCR false noOpApi (Some (reasonOrInternalError pr)))) /\
  (In capability (declaredCapabilities config) ->
     is_throw (getCapability config capability) = true ->
     exists x, noOpApiFactory config capability = Throw x).
Proof.
  intros A config capability pr Hc.
  unfold getCapability; rewrite Hc.
  destruct (existsb (String.eqb capability) (declaredCapabilities config)) eqn:Ed.
  - pose proof (proj1 (existsb_eqb_In _ _) Ed) as Hin. simpl.
    split; [|split].
    + split; [| intros H; contradiction].
      intros [c Hthrow].
      destruct (granted pr); [destruct (apiFactory config capability)|];
        destruct (noOpApiFactory config capability); discriminate.
    + intros _ Hden noOpApi Hn.
      destruct Hden as [Hg | [x Hx]].
      * rewrite Hg, Hn; reflexivity.
      * rewrite Hx. destruct (granted pr); rewrite Hn; reflexivity.
    + intros _ Ht.
      destruct (noOpApiFactory config capability) as [n|x] eqn:Hn; [|exists x; reflexivity].
      destruct (granted pr); [destruct (apiFactory config capability)|]; discriminate.
  - split; [|split].
    + split; [intros _ Hin; apply existsb_eqb_In in Hin; congruence | intros _; eexists; reflexivity].
    + intros Hin; apply existsb_eqb_In in Hin; congruence.
    + intros Hin; apply existsb_eqb_In in Hin; congruence.
Qed.

(** Witness for [getCapability_contract]: a denied capability. *)
Lemma getCapability_contract_witness :
  getCapability denyingConfig "audio" = Ret (mkCR false tt (Some "user_disabled")).
Proof.
  destruct (getCapability_contract denyingConfig "audio" (mkPR false (Some "user_disabled"))
              eq_refl) as [_ [H _]].
  apply (H (or_introl eq_refl) (or_introl eq_refl) tt eq_refl).
Defined.

(** ** The emission pipeline *)

Lemma checkRateLimit_counts : forall now s,
  eventCount (snd (checkRateLimit now s)) = eventCount s /\
  droppedCount (snd (checkRateLimit now s)) = droppedCount s.
Proof.
  intros now s. unfold checkRateLimit.
  destruct (Z.leb RATE_LIMIT_WINDOW_MS (now - rateLimitWindowStart s)); simpl;
    try (match goal with |- context [if ?b then _ else _] => destruct b end); simpl; auto.
Qed.

Lemma checkRateLimit_spec : forall now s,
  let '(b, s1) := checkRateLimit now s in
  eventCount s1 = eventCount s /\ droppedCount s1 = droppedCount s /\
  if Z.leb RATE_LIMIT_WINDOW_MS (now - rateLimitWindowStart s)
  then rateLimitWindowStart s1 = now /\ b = true /\ eventsInWindow s1 = 1
  else rateLimitWindowStart s1 = rateLimitWindowStart s /\
       if Z.leb MAX_EVENTS_PER_SECOND (eventsInWindow s)
       then b = false /\ eventsInWindow s1 = eventsInWindow s
       else b = true /\ eventsInWindow s1 = eventsInWindow s + 1.
Proof.
  intros now s. unfold checkRateLimit.
  destruct (Z.leb RATE_LIMIT_WINDOW_MS (now - rateLimitWindowStart s)) eqn:E; simpl.
  - repeat split; auto.
  - destruct (Z.leb MAX_EVENTS_PER_SECOND (eventsInWindow s)); simpl; repeat split; auto.
Qed.

(** [emit] changes the rate-limit window exactly as [checkRateLimit]
    does, whatever the event, the mode and the handlers. *)
Lemma emit_window : forall cfg now now_ts ev s,
  rateLimitWindowStart (es_state (emit cfg now now_ts ev s))
    = rateLimitWindowStart (snd (checkRateLimit now s)) /\
  eventsInWindow (es_state (emit cfg now now_ts ev s))
    = eventsInWindow (snd (checkRateLimit now s)).
Proof.
  intros cfg now now_ts ev s. unfold emit.
  destruct (checkRateLimit now s) as [b s1]. simpl.
  repeat (match goal with
          | |- context [match ?x with _ => _ end] => destruct x
          end; simpl); auto.
Qed.

(** A call refused by the rate limiter is dropped and counted at once. *)
Lemma emit_rate_limited : forall cfg now now_ts ev s,
  fst (checkRateLimit now s) = false ->
  es_delivered (emit cfg now now_ts ev s) = [] /\
  droppedCount (es_state (emit cfg now now_ts ev s)) = droppedCount s + 1 /\
  eventCount (es_state (emit cfg now now_ts ev s)) = eventCount s.
Proof.
  intros cfg now now_ts ev s H.
  pose proof (checkRateLimit_counts now s) as [Ec Ed].
  unfold emit. destruct (checkRateLimit now s) as [b s1]. simpl in *. subst b. simpl.
  destruct (mode cfg); [|destruct (read_type ev) as [t|x]; [destruct (js_to_string t)|]];
    simpl; repeat split; lia.
Qed.

Lemma deliver_indices : forall hs i ee,
  map fst (deliver hs i ee) = seq i (length hs).
Proof.
  induction hs as [|h hs IH]; intros i ee; simpl; [reflexivity|].
  destruct (h ee); simpl; rewrite IH; reflexivity.
Qed.

(** ** C1: [emit] never throws on an event object *)

(** Claim C1 fails as stated: in production mode [emit(null)] reads
    [event.type] outside any [try] and throws a [TypeError]. *)
Lemma emit_null_production_throws :
  es_outcome (emit prodConfig 0 0 JNull (initEmitter 0))
  = Throw (TypeError "Cannot read properties of null (reading 'type')").
Proof. reflexivity. Qed.

(** In production mode the validator always returns a result. *)
Lemma validateEvent_production : forall ev,
  exists r, validateEvent ev production = Ret r.
Proof.
  intros ev. unfold validateEvent.
  destruct ev; try (eexists; reflexivity).
  destruct (get _ "type"); try (eexists; reflexivity).
  destruct (N.ltb _ _); [eexists; reflexivity|].
  destruct (dispatch _ _); eexists; reflexivity.
Qed.

(** In development mode the warning for a rate-limited event interpolates
    [event.type]: a Symbol type makes [emit] throw a [TypeError]. *)
Lemma emit_symbol_type_rate_limited_throws :
  es_outcome (emit devConfigThrowingHandler 0 0 (JObj [("type", JSym)]) (mkES 0 0 0 50))
  = Throw (TypeError "Cannot convert a Symbol value to a string").
Proof. reflexivity. Qed.

(** A [getSessionId] that throws makes [emit] throw once the event has
    passed validation. *)
Lemma emit_getSessionId_throws :
  es_outcome (emit (mkEC "memory-match" "1.0.0" (Throw (HostError "no session"))
                         production []) 0 0 levelStarted (initEmitter 0))
  = Throw (HostError "no session").
Proof. reflexivity. Qed.

(** C1 (amended): for every event object, in both modes, [emit] returns
    normally, provided the host's [getSessionId] returns and, in
    development mode, the event's [type] converts to a string (the
    rate-limit warning interpolates it); when the validator throws, the
    event is dropped and counted and no handler runs; and when the event
    gets through, every registered handler is invoked in order, including
    those after a handler that throws. *)
Theorem emit_object_contract : forall cfg now now_ts o s,
  0 <= now_ts ->
  (exists sid, getSessionId cfg = Ret sid) ->
  (mode cfg = production \/ js_to_string (get o "type") = Ret tt) ->
  es_outcome (emit cfg now now_ts (JObj o) s) = Ret tt /\
  ((exists x, validateEvent (JObj o) (mode cfg) = Throw x) ->
     es_delivered (emit cfg now now_ts (JObj o) s) = [] /\
     droppedCount (es_state (emit cfg now now_ts (JObj o) s)) = droppedCount s + 1) /\
  (forall r,
     fst (checkRateLimit now s) = true ->
     (mode cfg = development \/ get o "type" <> JStr "DEV_LOG") ->
     validateEvent (JObj o) (mode cfg) = Ret r -> valid r = true ->
     map fst (es_delivered (emit cfg now now_ts (JObj o) s))
       = seq 0 (length (handlers cfg)) /\
     eventCount (es_state (emit cfg now now_ts (JObj o) s)) = eventCount s + 1).
Proof.
  intros cfg now now_ts o s Hts [sid Hsid] Hconv.
  pose proof (checkRateLimit_counts now s) as [Ec Ed].
  assert (Hct : createTimestamp now_ts = Ret now_ts).
  { unfold createTimestamp. destruct (Z.ltb now_ts 0) eqn:E; [lia|reflexivity]. }
  remember (validateEvent (JObj o) (mode cfg)) as V eqn:HV.
  unfold emit. rewrite <- HV, Hsid.
  destruct (checkRateLimit now s) as [b s1] eqn:Ecr.
  simpl in Ec, Ed.
  destruct b; simpl.
  - (* admitted by the rate limiter *)
    destruct (mode cfg) eqn:Em; simpl.
    + destruct (is_dev_log (get o "type")) eqn:Ed'.
      * simpl. split; [reflexivity|]. split.
        -- intros [x Hx]. exfalso.
           destruct (validateEvent_production (JObj o)) as [r Hr]. congruence.
        -- intros r _ [Hd|Hd]; [discriminate|]. apply is_dev_log_spec in Ed'. contradiction.
      * destruct V as [r|x]; simpl.
        -- destruct (valid r) eqn:Vr; simpl.
           ++ rewrite Hct. simpl. split; [reflexivity|]. split.
              ** intros [x Hx]; discriminate.
              ** intros r' _ _ Hr' _. injection Hr' as <-.
                 split; [apply deliver_indices|simpl; lia].
           ++ split; [reflexivity|]. split.
              ** intros [x Hx]; discriminate.
              ** intros r' _ _ Hr' Vr'. injection Hr' as <-. congruence.
        -- split; [reflexivity|]. split.
           ++ intros _. simpl. split; [reflexivity|lia].
           ++ intros r' _ _ Hr'. discriminate.
    + destruct V as [r|x]; simpl.
      * destruct (valid r) eqn:Vr; simpl.
        -- rewrite Hct. simpl. split; [reflexivity|]. split.
           ++ intros [x Hx]; discriminate.
           ++ intros r' _ _ Hr' _. injection Hr' as <-.
              split; [apply deliver_indices|simpl; lia].
        -- split; [reflexivity|]. split.
           ++ intros [x Hx]; discriminate.
           ++ intros r' _ _ Hr' Vr'. injection Hr' as <-. congruence.
      * split; [reflexivity|]. split.
        -- intros _. simpl. split; [reflexivity|lia].
        -- intros r' _ _ Hr'. discriminate.
  - (* refused by the rate limiter *)
    destruct (mode cfg) eqn:Em; simpl.
    + repeat split; try lia; intros; discriminate.
    + destruct Hconv as [Hm|Hc]; [discriminate|]. rewrite Hc. simpl.
      repeat split; try lia; intros; discriminate.
Qed.

Lemma emit_object_contract_witness :
  0 <= 5 /\ getSessionId devConfigThrowingHandler = Ret (Some "s1") /\
  js_to_string (get levelStartedFields "type") = Ret tt /\
  es_outcome (emit devConfigThrowingHandler 0 5 levelStarted (initEmitter 0)) = Ret tt /\
  map fst (es_delivered (emit devConfigThrowingHandler 0 5 levelStarted (initEmitter 0)))
    = [0; 1]%nat.
Proof.
  assert (Hs : exists sid, getSessionId devConfigThrowingHandler = Ret sid)
    by (eexists; reflexivity).
  assert (Hc : mode devConfigThrowingHandler = production
               \/ js_to_string (get levelStartedFields "type") = Ret tt)
    by (right; reflexivity).
  split; [lia|]. split; [reflexivity|]. split; [reflexivity|]. split.
  - apply (emit_object_contract devConfigThrowingHandler 0 5 levelStartedFields
             (initEmitter 0)); [lia|exact Hs|exact Hc].
  - pose proof (emit_object_contract devConfigThrowingHandler 0 5 levelStartedFields
                  (initEmitter 0)) as H. destruct H as [_ [_ H3]]; [lia|exact Hs|exact Hc|].
    destruct (validateEvent (JObj levelStartedFields) development) as [r|x] eqn:Ev;
      vm_compute in Ev; [|discriminate].
    injection Ev as <-.
    destruct (H3 _ eq_refl (or_introl eq_refl) eq_refl eq_refl) as [Hd _].
    exact Hd.
Defined.

(** ** The rate limiter over a sequence of calls *)

Lemma run_emits_cons : forall cfg c cs s,
  run_emits cfg (c :: cs) s =
  ((c_now c, rateLimitWindowStart (snd (checkRateLimit (c_now c) s)),
    fst (checkRateLimit (c_now c) s))
     :: fst (run_emits cfg cs (es_state (emit cfg (c_now c) (c_now_ts c) (c_event c) s))),
   snd (run_emits cfg cs (es_state (emit cfg (c_now c) (c_now_ts c) (c_event c) s)))).
Proof.
  intros cfg c cs s. simpl.
  destruct (checkRateLimit (c_now c) s).
  destruct (run_emits cfg cs _). reflexivity.
Qed.

Lemma admitted_in_window_cons : forall w tm ws adm log,
  admitted_in_window w ((tm, ws, adm) :: log)
  = ((if adm && Z.eqb ws w then 1 else 0) + admitted_in_window w log)%nat.
Proof.
  intros. unfold admitted_in_window. simpl.
  destruct (adm && Z.eqb ws w); reflexivity.
Qed.

Lemma admitted_in_window_below : forall w log,
  (forall e, In e log -> w < snd (fst e)) -> admitted_in_window w log = 0%nat.
Proof.
  intros w log. induction log as [|[[tm ws] adm] log IH]; intros H; [reflexivity|].
  rewrite admitted_in_window_cons.
  assert (Hw : w < ws) by exact (H _ (or_introl eq_refl)).
  rewrite IH by (intros e He; apply H; right; exact He).
  destruct adm; simpl; [|reflexivity].
  destruct (Z.eqb ws w) eqn:E; [apply Z.eqb_eq in E; lia|reflexivity].
Qed.

Lemma checkRateLimit_start_mono : forall now s,
  rateLimitWindowStart s <= rateLimitWindowStart (snd (checkRateLimit now s)).
Proof.
  intros now s. pose proof (checkRateLimit_spec now s) as H.
  destruct (checkRateLimit now s) as [b s1]. simpl.
  destruct H as [_ [_ H]].
  destruct (Z.leb RATE_LIMIT_WINDOW_MS (now - rateLimitWindowStart s)) eqn:E.
  - apply Z.leb_le in E. unfold RATE_LIMIT_WINDOW_MS in E. lia.
  - destruct H as [-> _]. lia.
Qed.

(** Every window label in the log of a run is at least the window start
    the run began with. *)
Lemma run_emits_labels : forall cfg cs s e,
  In e (fst (run_emits cfg cs s)) -> rateLimitWindowStart s <= snd (fst e).
Proof.
  intros cfg cs. induction cs as [|c cs IH]; intros s e Hin; [contradiction|].
  rewrite run_emits_cons in Hin. simpl in Hin.
  pose proof (checkRateLimit_start_mono (c_now c) s) as Hm.
  destruct Hin as [<- | Hin]; simpl; [exact Hm|].
  apply IH in Hin.
  destruct (emit_window cfg (c_now c) (c_now_ts c) (c_event c) s) as [Hs _].
  lia.
Qed.

(** The invariant behind the per-window bound: the admissions logged
    in window [w], plus those already counted there, never exceed the
    ceiling. *)
Lemma run_emits_window_bound : forall cfg cs s,
  0 <= eventsInWindow s <= MAX_EVENTS_PER_SECOND ->
  forall w,
    Z.of_nat (admitted_in_window w (fst (run_emits cfg cs s)))
    + (if Z.eqb w (rateLimitWindowStart s) then eventsInWindow s else 0)
    <= MAX_EVENTS_PER_SECOND.
Proof.
  intros cfg cs. unfold MAX_EVENTS_PER_SECOND.
  induction cs as [|c cs IH]; intros s Hs w.
  - simpl. destruct (Z.eqb w _); lia.
  - rewrite run_emits_cons. simpl fst.
    rewrite admitted_in_window_cons.
    pose proof (checkRateLimit_spec (c_now c) s) as Hc.
    destruct (emit_window cfg (c_now c) (c_now_ts c) (c_event c) s) as [Hs1 Hi1].
    pose proof (run_emits_labels cfg cs
                  (es_state (emit cfg (c_now c) (c_now_ts c) (c_event c) s))) as Hl.
    remember (es_state (emit cfg (c_now c) (c_now_ts c) (c_event c) s)) as s'.
    destruct (checkRateLimit (c_now c) s) as [b s1]. simpl in *.
    destruct Hc as [_ [_ Hc]].
    assert (IH' := fun H => IH s' H w).
    rewrite Hs1, Hi1 in IH'.
    destruct (Z.leb RATE_LIMIT_WINDOW_MS (c_now c - rateLimitWindowStart s)) eqn:E.
    + apply Z.leb_le in E. unfold RATE_LIMIT_WINDOW_MS in E.
      destruct Hc as [Hst [-> Hin]].
      rewrite Hst, Hin in IH'. specialize (IH' ltac:(lia)). rewrite Hst.
      destruct (Z.eqb_spec w (rateLimitWindowStart s)) as [Ew|Ew].
      * rewrite admitted_in_window_below
          by (intros e He; apply Hl in He; rewrite Hs1, Hst in He; lia).
        destruct (Z.eqb_spec (c_now c) w); cbn [andb]; lia.
      * destruct (Z.eqb_spec (c_now c) w), (Z.eqb_spec w (c_now c)); cbn [andb] in *; lia.
    + destruct Hc as [Hst Hc].
      destruct (Z.leb MAX_EVENTS_PER_SECOND (eventsInWindow s)) eqn:Em;
        unfold MAX_EVENTS_PER_SECOND in Em.
      * apply Z.leb_le in Em. destruct Hc as [-> Hin].
        rewrite Hst, Hin in IH'. specialize (IH' ltac:(lia)). cbn [andb]. lia.
      * apply Z.leb_gt in Em. destruct Hc as [-> Hin].
        rewrite Hst, Hin in IH'. specialize (IH' ltac:(lia)). rewrite Hst.
        destruct (Z.eqb_spec w (rateLimitWindowStart s)),
                 (Z.eqb_spec (rateLimitWindowStart s) w); cbn [andb] in *; lia.
Qed.

(** Calls made inside the current window keep its start and fill it up
    to the ceiling, whatever their events. *)
Lemma run_emits_same_window : forall cfg cs s,
  0 <= eventsInWindow s <= MAX_EVENTS_PER_SECOND ->
  Forall (fun c => c_now c - rateLimitWindowStart s < RATE_LIMIT_WINDOW_MS) cs ->
  rateLimitWindowStart (snd (run_emits cfg cs s)) = rateLimitWindowStart s /\
  eventsInWindow (snd (run_emits cfg cs s))
    = Z.min MAX_EVENTS_PER_SECOND (eventsInWindow s + Z.of_nat (length cs)).
Proof.
  intros cfg cs. unfold MAX_EVENTS_PER_SECOND, RATE_LIMIT_WINDOW_MS.
  induction cs as [|c cs IH]; intros s Hs Hf.
  - simpl. split; [reflexivity|lia].
  - inversion Hf as [|c' cs' Hc Hf']; subst c' cs'.
    rewrite run_emits_cons. simpl snd.
    pose proof (checkRateLimit_spec (c_now c) s) as Hcr.
    destruct (emit_window cfg (c_now c) (c_now_ts c) (c_event c) s) as [Hs1 Hi1].
    remember (es_state (emit cfg (c_now c) (c_now_ts c) (c_event c) s)) as s'.
    destruct (checkRateLimit (c_now c) s) as [b s1]. simpl in Hs1, Hi1.
    destruct Hcr as [_ [_ Hcr]].
    assert (E : Z.leb RATE_LIMIT_WINDOW_MS (c_now c - rateLimitWindowStart s) = false)
      by (apply Z.leb_gt; unfold RATE_LIMIT_WINDOW_MS; lia).
    rewrite E in Hcr. destruct Hcr as [Hst Hcr].
    assert (Hf2 : Forall (fun c => c_now c - rateLimitWindowStart s' < 1000) cs)
      by (rewrite Hs1, Hst; exact Hf').
    destruct (Z.leb MAX_EVENTS_PER_SECOND (eventsInWindow s)) eqn:Em;
      unfold MAX_EVENTS_PER_SECOND in Em; destruct Hcr as [_ Hin].
    + apply Z.leb_le in Em.
      destruct (IH s' ltac:(lia) Hf2) as [H1 H2].
      rewrite H1, Hs1, Hst, H2, Hi1, Hin. simpl length. split; [reflexivity|lia].
    + apply Z.leb_gt in Em.
      destruct (IH s' ltac:(lia) Hf2) as [H1 H2].
      rewrite H1, Hs1, Hst, H2, Hi1, Hin. simpl length. split; [reflexivity|lia].
Qed.

(** ** C4: the rate limit uses fixed windows *)

(** Claim C4 fails as stated: 50 calls at 999 ms and 50 at 1000 ms fall
    within one rolling second, and all 100 are admitted, because a new
    fixed window opens at 1000 ms. *)
Lemma rate_limit_not_rolling :
  (50 < admitted_between 999 (fst (run_emits prodConfig burstCalls (initEmitter 0))))%nat.
Proof. vm_compute. lia. Qed.

(** C4 (amended): the limiter counts admissions per fixed window, a new
    window opening at the first call made 1000 ms or more after the
    current window's start; from any initial state at most 50 calls are
    admitted in each window, and a call the limiter refuses is dropped
    at once, counted in [droppedCount], and delivered to no handler. *)
Theorem rate_limit_fixed_window : forall cfg cs t0 w,
  (admitted_in_window w (fst (run_emits cfg cs (initEmitter t0))) <= 50)%nat /\
  (forall now now_ts ev s,
     fst (checkRateLimit now s) = false ->
     es_delivered (emit cfg now now_ts ev s) = [] /\
     droppedCount (es_state (emit cfg now now_ts ev s)) = droppedCount s + 1 /\
     eventCount (es_state (emit cfg now now_ts ev s)) = eventCount s).
Proof.
  intros cfg cs t0 w. split.
  - pose proof (run_emits_window_bound cfg cs (initEmitter t0)) as H.
    unfold MAX_EVENTS_PER_SECOND in H. simpl in H.
    specialize (H ltac:(lia) w).
    destruct (Z.eqb w t0); lia.
  - intros now now_ts ev s Hr. apply emit_rate_limited. exact Hr.
Qed.

Lemma rate_limit_fixed_window_witness :
  (admitted_in_window 999 (fst (run_emits prodConfig burstCalls (initEmitter 0))) <= 50)%nat /\
  es_delivered (emit prodConfig 10 10 levelStarted (mkES 0 0 0 50)) = [].
Proof.
  split.
  - apply (rate_limit_fixed_window prodConfig burstCalls 0 999).
  - apply (rate_limit_fixed_window prodConfig burstCalls 0 999); reflexivity.
Defined.

(** ** C10: every call takes a rate-limit slot before anything else *)

(** C10: a call admitted by the limiter takes one slot of its window
    whatever happens to the event afterwards; hence 50 calls inside a
    fresh window, with any events at all, make the next call in that
    window be dropped by the limiter. *)
Theorem rate_slot_consumed_first :
  (forall cfg now now_ts ev s,
     fst (checkRateLimit now s) = true ->
     rateLimitWindowStart (es_state (emit cfg now now_ts ev s))
       = (if Z.leb RATE_LIMIT_WINDOW_MS (now - rateLimitWindowStart s)
          then now else rateLimitWindowStart s) /\
     eventsInWindow (es_state (emit cfg now now_ts ev s))
       = (if Z.leb RATE_LIMIT_WINDOW_MS (now - rateLimitWindowStart s)
          then 0 else eventsInWindow s) + 1) /\
  (forall cfg cs s now now_ts ev,
     eventsInWindow s = 0 ->
     length cs = 50%nat ->
     Forall (fun c => c_now c - rateLimitWindowStart s < RATE_LIMIT_WINDOW_MS) cs ->
     now - rateLimitWindowStart s < RATE_LIMIT_WINDOW_MS ->
     let s50 := snd (run_emits cfg cs s) in
     es_delivered (emit cfg now now_ts ev s50) = [] /\
     droppedCount (es_state (emit cfg now now_ts ev s50)) = droppedCount s50 + 1 /\
     eventCount (es_state (emit cfg now now_ts ev s50)) = eventCount s50).
Proof.
  split.
  - intros cfg now now_ts ev s Ha.
    destruct (emit_window cfg now now_ts ev s) as [H1 H2]. rewrite H1, H2.
    pose proof (checkRateLimit_spec now s) as Hc.
    destruct (checkRateLimit now s) as [b s1]. simpl in Ha |- *. subst b.
    destruct Hc as [_ [_ Hc]].
    destruct (Z.leb RATE_LIMIT_WINDOW_MS (now - rateLimitWindowStart s)).
    + destruct Hc as [-> [_ ->]]. split; reflexivity.
    + destruct Hc as [-> Hc].
      destruct (Z.leb MAX_EVENTS_PER_SECOND (eventsInWindow s));
        destruct Hc as [Hb Hin]; [discriminate|]. split; [reflexivity|exact Hin].
  - intros cfg cs s now now_ts ev H0 Hlen Hf Hnow s50.
    destruct (run_emits_same_window cfg cs s ltac:(unfold MAX_EVENTS_PER_SECOND; lia) Hf)
      as [Hst Hin].
    rewrite H0, Hlen in Hin. unfold MAX_EVENTS_PER_SECOND in Hin. simpl in Hin.
    apply emit_rate_limited.
    unfold checkRateLimit. fold s50 in Hst, Hin.
    rewrite Hst.
    assert (E : Z.leb RATE_LIMIT_WINDOW_MS (now - rateLimitWindowStart s) = false)
      by (apply Z.leb_gt; exact Hnow).
    rewrite E, Hin. reflexivity.
Qed.

Lemma rate_slot_consumed_first_witness :
  es_delivered (emit prodConfig 10 10 levelStarted
                  (snd (run_emits prodConfig devLogBurst (initEmitter 0)))) = [].
Proof.
  apply (proj2 rate_slot_consumed_first prodConfig devLogBurst (initEmitter 0) 10 10 levelStarted).
  - reflexivity.
  - reflexivity.
  - apply Forall_forall. intros c Hc. apply repeat_spec in Hc. subst c.
    vm_compute. reflexivity.
  - vm_compute. reflexivity.
Defined.

(** ** C7: the size ceilings of [SAVE_GAME_STATE] *)






(** ** Object updates *)

Lemma lookup_map_other : forall o k k' v,
  k' <> k ->
  lookup (map (fun kv => if String.eqb k (fst kv) then (k, v) else kv) o) k' = lookup o k'.
Proof.
  induction o as [|[k1 v1] o IH]; intros k k' v Hne; [reflexivity|].
  simpl. destruct (String.eqb k k1) eqn:E; simpl.
  - apply String.eqb_eq in E. subst k1.
    destruct (String.eqb_spec k' k); [contradiction|]. apply IH. exact Hne.
  - rewrite IH by exact Hne. reflexivity.
Qed.

Lemma lookup_app_absent : forall o k k' v,
  lookup o k = None ->
  lookup (app o [(k, v)]) k' = if String.eqb k' k then Some v else lookup o k'.
Proof.
  induction o as [|[k1 v1] o IH]; intros k k' v Hk; simpl.
  - destruct (String.eqb k' k); reflexivity.
  - simpl in Hk. destruct (String.eqb_spec k k1) as [->|Hne]; [discriminate|].
    destruct (String.eqb_spec k' k1) as [->|Hne'].
    + destruct (String.eqb_spec k1 k); [congruence|reflexivity].
    + apply IH. exact Hk.
Qed.

Lemma lookup_set_prop : forall o k k' v,
  lookup (set_prop o k v) k' = if String.eqb k' k then Some v else lookup o k'.
Proof.
  intros o k k' v. unfold set_prop, has_prop.
  destruct (lookup o k) as [w|] eqn:Hk.
  - destruct (String.eqb_spec k' k) as [->|Hne]; [|apply lookup_map_other; exact Hne].
    induction o as [|[k1 v1] o IH]; simpl in Hk |- *; [discriminate|].
    destruct (String.eqb_spec k k1) as [->|Hne]; simpl.
    + rewrite String.eqb_refl. reflexivity.
    + destruct (String.eqb_spec k k1); [contradiction|]. apply IH. exact Hk.
  - apply lookup_app_absent. exact Hk.
Qed.

Lemma get_set_prop : forall o k k' v,
  get (set_prop o k v) k' = if String.eqb k' k then v else get o k'.
Proof.
  intros. unfold get. rewrite lookup_set_prop.
  destruct (String.eqb k' k); reflexivity.
Qed.

Lemma lookup_del_prop : forall o k k',
  lookup (del_prop o k) k' = if String.eqb k' k then None else lookup o k'.
Proof.
  induction o as [|[k1 v1] o IH]; intros k k'; simpl.
  - destruct (String.eqb k' k); reflexivity.
  - destruct (String.eqb_spec k k1) as [->|Hne]; simpl.
    + rewrite IH. destruct (String.eqb_spec k' k1); reflexivity.
    + destruct (String.eqb_spec k' k1) as [->|Hne'].
      * destruct (String.eqb_spec k1 k); [congruence|reflexivity].
      * apply IH.
Qed.

Lemma get_del_prop : forall o k k',
  get (del_prop o k) k' = if String.eqb k' k then JUndefined else get o k'.
Proof.
  intros. unfold get. rewrite lookup_del_prop.
  destruct (String.eqb k' k); reflexivity.
Qed.

(** ** Clamping numbers *)

Lemma num_lt_fin : forall a b c d,
  num_lt (NFin a b) (NFin c d) = true <-> (num_Q a b < num_Q c d)%Q.
Proof.
  intros a b c d. simpl. rewrite negb_true_iff. split; intro H.
  - apply Qnot_le_lt. intro H'. apply Qle_bool_iff in H'. congruence.
  - destruct (Qle_bool (num_Q c d) (num_Q a b)) eqn:E; [|reflexivity].
    apply Qle_bool_iff in E. exfalso. exact (Qlt_not_le _ _ H E).
Qed.

Lemma num_lt_fin_false : forall a b c d,
  num_lt (NFin a b) (NFin c d) = false <-> (num_Q c d <= num_Q a b)%Q.
Proof.
  intros a b c d. simpl. rewrite negb_false_iff. apply Qle_bool_iff.
Qed.

Lemma num_Q_int : forall z, num_Q z 0 = inject_Z z.
Proof. intros z. unfold num_Q. simpl. rewrite Z.mul_1_r. reflexivity. Qed.

(** Below 0, [Math.max(0, Math.min(1, n))] is 0 and differs from [n]. *)
Lemma clamp_unit_below : forall n,
  num_lt n (js_int 0) = true ->
  js_max (js_int 0) (js_min (js_int 1) n) = js_int 0 /\
  num_eq (js_int 0) n = false.
Proof.
  intros [m e| | |] H; try discriminate; [|split; reflexivity].
  unfold js_int in *. apply num_lt_fin in H. rewrite num_Q_int in H.
  assert (H1 : num_lt (NFin m e) (NFin 1 0) = true).
  { apply num_lt_fin. rewrite num_Q_int.
    apply Qlt_trans with (inject_Z 0); [exact H|reflexivity]. }
  assert (H2 : num_lt (NFin 0 0) (NFin m e) = false).
  { apply num_lt_fin_false. rewrite num_Q_int. apply Qlt_le_weak. exact H. }
  unfold js_min, js_max. rewrite H1, H2. split; [reflexivity|].
  simpl. destruct (Qeq_bool _ _) eqn:E; [|reflexivity].
  apply Qeq_bool_iff in E. rewrite num_Q_int in E. rewrite <- E in H.
  exfalso. exact (Qlt_irrefl _ H).
Qed.

(** Above 1, [Math.max(0, Math.min(1, n))] is 1 and differs from [n]. *)
Lemma clamp_unit_above : forall n,
  num_lt (js_int 1) n = true ->
  js_max (js_int 0) (js_min (js_int 1) n) = js_int 1 /\
  num_eq (js_int 1) n = false.
Proof.
  intros [m e| | |] H; try discriminate; [|split; reflexivity].
  unfold js_int in *. apply num_lt_fin in H. rewrite num_Q_int in H.
  assert (H1 : num_lt (NFin m e) (NFin 1 0) = false).
  { apply num_lt_fin_false. rewrite num_Q_int. apply Qlt_le_weak. exact H. }
  unfold js_min, js_max. rewrite H1. split; [reflexivity|].
  simpl. destruct (Qeq_bool _ _) eqn:E; [|reflexivity].
  apply Qeq_bool_iff in E. rewrite num_Q_int in E. rewrite <- E in H.
  exfalso. exact (Qlt_irrefl _ H).
Qed.

(** Below 0, [Math.max(0, n)] is 0 and differs from [n]. *)
Lemma clamp_nonneg_below : forall n,
  num_lt n (js_int 0) = true ->
  js_max (js_int 0) n = js_int 0 /\ num_eq (js_int 0) n = false.
Proof.
  intros [m e| | |] H; try discriminate; [|split; reflexivity].
  unfold js_int in *. apply num_lt_fin in H. rewrite num_Q_int in H.
  assert (H2 : num_lt (NFin 0 0) (NFin m e) = false).
  { apply num_lt_fin_false. rewrite num_Q_int. apply Qlt_le_weak. exact H. }
  unfold js_max. rewrite H2. split; [reflexivity|].
  simpl. destruct (Qeq_bool _ _) eqn:E; [|reflexivity].
  apply Qeq_bool_iff in E. rewrite num_Q_int in E. rewrite <- E in H.
  exfalso. exact (Qlt_irrefl _ H).
Qed.

(** ** The field steps of [validatePerformanceReported] *)

Lemma clampUnitField_other : forall name o st k,
  k <> name ->
  get (vs_cleaned (clampUnitField name o st)) k = get (vs_cleaned st) k.
Proof.
  intros name o st k Hne. unfold clampUnitField.
  destruct (get o name); try reflexivity;
    destruct (clampOptional _ _ _) as [[c b]|]; try reflexivity;
    simpl; rewrite get_set_prop; destruct (String.eqb_spec k name); congruence.
Qed.

Lemma clampNonNegField_other : forall name o st k,
  k <> name ->
  get (vs_cleaned (clampNonNegField name o st)) k = get (vs_cleaned st) k.
Proof.
  intros name o st k Hne. unfold clampNonNegField.
  destruct (get o name); try reflexivity;
    destruct (clampNonNegative _) as [[c b]|]; try reflexivity;
    simpl; rewrite get_set_prop; destruct (String.eqb_spec k name); congruence.
Qed.

Lemma clampUnitField_lists : forall name o st,
  (exists l, vs_errors (clampUnitField name o st) = app (vs_errors st) l) /\
  (exists l, vs_warnings (clampUnitField name o st) = app (vs_warnings st) l) /\
  (finite_or_absent (get o name) = true ->
   vs_errors (clampUnitField name o st) = vs_errors st) /\
  (get o name <> JUndefined -> finite_or_absent (get o name) = false ->
   vs_errors (clampUnitField name o st) = app (vs_errors st) [(name ++ " must be a number")%string]).
Proof.
  intros name o st. unfold clampUnitField.
  destruct (get o name) as [| |b|n|s|z| | |xs|ps] eqn:Hg; simpl;
    try (unfold clampOptional; destruct (num_is_finite n) eqn:Hf; simpl;
         [destruct (negb _); simpl|]);
    repeat split; try (first [exists []; rewrite app_nil_r; reflexivity
                             | eexists; reflexivity]);
    intros; first [reflexivity | discriminate | congruence].
Qed.

Lemma clampNonNegField_lists : forall name o st,
  (exists l, vs_errors (clampNonNegField name o st) = app (vs_errors st) l) /\
  vs_warnings (clampNonNegField name o st) = vs_warnings st /\
  (finite_or_absent (get o name) = true ->
   vs_errors (clampNonNegField name o st) = vs_errors st) /\
  (get o name <> JUndefined -> finite_or_absent (get o name) = false ->
   vs_errors (clampNonNegField name o st) = app (vs_errors st) [(name ++ " must be a number")%string]).
Proof.
  intros name o st. unfold clampNonNegField.
  destruct (get o name) as [| |b|n|s|z| | |xs|ps] eqn:Hg; simpl;
    try (unfold clampNonNegative; destruct (num_is_finite n) eqn:Hf; simpl);
    repeat split; try (first [exists []; rewrite app_nil_r; reflexivity
                             | eexists; reflexivity]);
    intros; first [reflexivity | discriminate | congruence].
Qed.

Lemma clampUnitField_self : forall name o st n,
  get o name = JNum n -> num_is_finite n = true ->
  get (vs_cleaned (clampUnitField name o st)) name
    = JNum (js_max (js_int 0) (js_min (js_int 1) n)) /\
  (num_eq (js_max (js_int 0) (js_min (js_int 1) n)) n = false ->
   vs_warnings (clampUnitField name o st) <> []).
Proof.
  intros name o st n Hg Hf. unfold clampUnitField. rewrite Hg.
  unfold clampOptional. rewrite Hf. simpl. split.
  - rewrite get_set_prop, String.eqb_refl. reflexivity.
  - intros E. rewrite E. simpl. intros H. apply app_eq_nil in H as [_ H]. discriminate.
Qed.

Lemma clampNonNegField_self : forall name o st n,
  get o name = JNum n -> num_is_finite n = true ->
  get (vs_cleaned (clampNonNegField name o st)) name = JNum (js_max (js_int 0) n).
Proof.
  intros name o st n Hg Hf. unfold clampNonNegField. rewrite Hg.
  unfold clampNonNegative. rewrite Hf. simpl.
  rewrite get_set_prop, String.eqb_refl. reflexivity.
Qed.

(** What [validatePerformanceReported] returns when each of its six
    fields is absent or a finite number. *)
Lemma validatePerformanceReported_finite : forall o,
  forallb (fun f => finite_or_absent (get o f)) perfFields = true ->
  exists cleaned ws,
    validatePerformanceReported o = mkVR true (Some (JObj cleaned)) [] ws /\
    (forall f n, In f unitFields -> get o f = JNum n ->
       get cleaned f = JNum (js_max (js_int 0) (js_min (js_int 1) n)) /\
       (num_eq (js_max (js_int 0) (js_min (js_int 1) n)) n = false -> ws <> [])) /\
    (forall f n, In f nonNegFields -> get o f = JNum n ->
       get cleaned f = JNum (js_max (js_int 0) n)).
Proof.
  intros o H. simpl in H. rewrite !andb_true_iff in H.
  destruct H as [H1 [H2 [H3 [H4 [H5 [H6 _]]]]]].
  unfold validatePerformanceReported.
  set (st1 := clampUnitField "accuracy" o (mkVS [] [] o)).
  set (st2 := clampUnitField "successRate" o st1).
  set (st3 := clampNonNegField "reactionTimeMs" o st2).
  set (st4 := clampNonNegField "errorCount" o st3).
  set (st5 := clampNonNegField "hintsUsed" o st4).
  set (st6 := clampNonNegField "streakLength" o st5).
  assert (Herr : vs_errors st6 = []).
  { unfold st6, st5, st4, st3, st2, st1.
    rewrite (proj1 (proj2 (proj2 (clampNonNegField_lists _ _ _))) H6).
    rewrite (proj1 (proj2 (proj2 (clampNonNegField_lists _ _ _))) H5).
    rewrite (proj1 (proj2 (proj2 (clampNonNegField_lists _ _ _))) H4).
    rewrite (proj1 (proj2 (proj2 (clampNonNegField_lists _ _ _))) H3).
    rewrite (proj1 (proj2 (proj2 (clampUnitField_lists _ _ _))) H2).
    rewrite (proj1 (proj2 (proj2 (clampUnitField_lists _ _ _))) H1).
    reflexivity. }
  rewrite Herr.
  exists (vs_cleaned st6), (vs_warnings st6). split; [reflexivity|]. split.
  - intros f n Hin Hg.
    assert (Hfin : num_is_finite n = true).
    { destruct Hin as [<-|[<-|[]]]; rewrite Hg in *; assumption. }
    destruct Hin as [<-|[<-|[]]].
    + unfold st6, st5, st4, st3, st2.
      rewrite !clampNonNegField_other, clampUnitField_other by discriminate.
      destruct (clampUnitField_self "accuracy" o (mkVS [] [] o) n Hg Hfin) as [Hc Hw].
      split; [exact Hc|]. intros Hne. specialize (Hw Hne). fold st1 in Hw |- *.
      unfold st6, st5, st4, st3, st2.
      repeat rewrite (proj1 (proj2 (clampNonNegField_lists _ _ _))).
      destruct (proj1 (proj2 (clampUnitField_lists "successRate" o st1))) as [l E].
      rewrite E. intro E'. apply app_eq_nil in E' as [E' _]. contradiction.
    + unfold st6, st5, st4, st3.
      rewrite !clampNonNegField_other by discriminate.
      destruct (clampUnitField_self "successRate" o st1 n Hg Hfin) as [Hc Hw].
      split; [exact Hc|]. intros Hne. specialize (Hw Hne).
      unfold st6, st5, st4, st3.
      repeat rewrite (proj1 (proj2 (clampNonNegField_lists _ _ _))). exact Hw.
  - intros f n Hin Hg.
    assert (Hfin : num_is_finite n = true).
    { destruct Hin as [<-|[<-|[<-|[<-|[]]]]]; rewrite Hg in *; assumption. }
    destruct Hin as [<-|[<-|[<-|[<-|[]]]]]; unfold st6, st5, st4, st3.
    + rewrite !clampNonNegField_other by discriminate. apply clampNonNegField_self; assumption.
    + rewrite !clampNonNegField_other by discriminate. apply clampNonNegField_self; assumption.
    + rewrite clampNonNegField_other by discriminate. apply clampNonNegField_self; assumption.
    + apply clampNonNegField_self; assumption.
Qed.

(** A [PERFORMANCE_REPORTED] field that is present but not a finite
    number leaves its error in the result. *)
Lemma validatePerformanceReported_bad_field : forall o f,
  In f perfFields -> finite_or_absent (get o f) = false ->
  valid (validatePerformanceReported o) = false /\
  In (f ++ " must be a number")%string (errors (validatePerformanceReported o)).
Proof.
  intros o f Hin Hf.
  assert (Hu : get o f <> JUndefined) by (intro E; rewrite E in Hf; discriminate).
  unfold validatePerformanceReported.
  set (st1 := clampUnitField "accuracy" o (mkVS [] [] o)).
  set (st2 := clampUnitField "successRate" o st1).
  set (st3 := clampNonNegField "reactionTimeMs" o st2).
  set (st4 := clampNonNegField "errorCount" o st3).
  set (st5 := clampNonNegField "hintsUsed" o st4).
  set (st6 := clampNonNegField "streakLength" o st5).
  assert (Hm : In (f ++ " must be a number")%string (vs_errors st6)).
  { assert (Pu : forall g st, In (f ++ " must be a number")%string (vs_errors st) ->
                 In (f ++ " must be a number")%string (vs_errors (clampUnitField g o st))).
    { intros g st Hi. destruct (proj1 (clampUnitField_lists g o st)) as [l ->].
      apply in_or_app. left. exact Hi. }
    assert (Pn : forall g st, In (f ++ " must be a number")%string (vs_errors st) ->
                 In (f ++ " must be a number")%string (vs_errors (clampNonNegField g o st))).
    { intros g st Hi. destruct (proj1 (clampNonNegField_lists g o st)) as [l ->].
      apply in_or_app. left. exact Hi. }
    assert (Su : forall st, In (f ++ " must be a number")%string (vs_errors (clampUnitField f o st))).
    { intros st. rewrite (proj2 (proj2 (proj2 (clampUnitField_lists f o st))) Hu Hf).
      apply in_or_app. right. left. reflexivity. }
    assert (Sn : forall st, In (f ++ " must be a number")%string (vs_errors (clampNonNegField f o st))).
    { intros st. rewrite (proj2 (proj2 (proj2 (clampNonNegField_lists f o st))) Hu Hf).
      apply in_or_app. right. left. reflexivity. }
    unfold st6, st5, st4, st3, st2, st1.
    destruct Hin as [<-|[<-|[<-|[<-|[<-|[<-|[]]]]]]];
      repeat first [apply Su | apply Sn | apply Pu | apply Pn]. }
  destruct (vs_errors st6) as [|e errs]; [contradiction|].
  split; [reflexivity|exact Hm].
Qed.

(** What [validateUserSignal] does with [value] once [signalType] is
    valid. *)
Lemma validateUserSignal_value : forall o,
  includes signalTypes (get o "signalType") = true ->
  exists cleaned ws,
    validateUserSignal o = mkVR true (Some (JObj cleaned)) [] ws /\
    (finite_or_absent (get o "value") = false ->
       get cleaned "value" = JUndefined /\ ws <> []) /\
    (forall n, get o "value" = JNum n -> num_is_finite n = true ->
       get cleaned "value" = JNum (js_max (js_int 0) (js_min (js_int 1) n)) /\
       (num_eq (js_max (js_int 0) (js_min (js_int 1) n)) n = false -> ws <> [])).
Proof.
  intros o Hs. unfold validateUserSignal. rewrite Hs. simpl push_if.
  destruct (get o "value") as [| |b|n|s|z| | |xs|ps] eqn:Hg; simpl;
    try (eexists _, _; split; [reflexivity|]; split;
         [intros _; cbn [vs_cleaned vs_warnings]; rewrite get_del_prop; simpl; split; [reflexivity|discriminate]
         |intros n' Hn'; discriminate]).
  - eexists _, _. split; [reflexivity|]. split; [intros H; discriminate|].
    intros n' Hn' _. discriminate.
  - destruct (num_is_finite n) eqn:Hf.
    + eexists _, _. split; [reflexivity|]. split; [intros H; discriminate|].
      intros n' Hn' _. injection Hn' as <-.
      cbn [vs_cleaned vs_warnings]. rewrite get_set_prop. simpl. split; [reflexivity|].
      intros E. rewrite E. simpl. discriminate.
    + eexists _, _. split; [reflexivity|]. split.
      * intros _. cbn [vs_cleaned vs_warnings]. rewrite get_del_prop. simpl. split; [reflexivity|discriminate].
      * intros n' Hn' Hf'. injection Hn' as <-. congruence.
Qed.

Lemma validateEvent_dispatch : forall o mode t r,
  get o "type" = JStr t ->
  (estimateSize (JObj o) <= MAX_EVENT_SIZE)%N ->
  dispatch t o = Some r ->
  validateEvent (JObj o) mode = Ret r.
Proof.
  intros o mode t r Ht Hs Hd. unfold validateEvent. rewrite Ht. cbv zeta.
  apply N.ltb_ge in Hs. rewrite Hs, Hd. reflexivity.
Qed.

Lemma unit_nonneg_disjoint : forall f, In f unitFields -> In f nonNegFields -> False.
Proof.
  intros f Hu Hn. destruct Hu as [<-|[<-|[]]];
    destruct Hn as [E|[E|[E|[E|[]]]]]; discriminate E.
Qed.

(** ** C5: clamping the analytics fields *)

(** Claim C5 fails as stated: [accuracy: Infinity] is a number above 1,
    and the event is rejected ([Number.isFinite] excludes it from
    clamping) rather than clamped. *)
Lemma perf_infinite_accuracy_rejected :
  match validateEvent (JObj perfAccuracyInfinity) production with
  | Ret r => valid r = false
  | Throw _ => False
  end.
Proof. vm_compute. reflexivity. Qed.

(** C5 (amended): for an otherwise valid event within the size ceiling
    whose analytics fields are absent or finite numbers, a field below
    its range is cleaned to 0, a proportion above 1 is cleaned to 1, the
    result is [valid:true], and an out-of-range [accuracy],
    [successRate] or [USER_SIGNAL] [value] leaves a warning. *)
Theorem analytics_clamped :
  (forall o mode f n,
     get o "type" = JStr "PERFORMANCE_REPORTED" ->
     (estimateSize (JObj o) <= MAX_EVENT_SIZE)%N ->
     forallb (fun g => finite_or_absent (get o g)) perfFields = true ->
     In f perfFields -> get o f = JNum n ->
     exists cleaned ws,
       validateEvent (JObj o) mode = Ret (mkVR true (Some (JObj cleaned)) [] ws) /\
       (num_lt n (js_int 0) = true -> get cleaned f = JNum (js_int 0)) /\
       (In f unitFields -> num_lt (js_int 1) n = true -> get cleaned f = JNum (js_int 1)) /\
       (In f unitFields -> num_lt n (js_int 0) || num_lt (js_int 1) n = true -> ws <> [])) /\
  (forall o mode n,
     get o "type" = JStr "USER_SIGNAL" ->
     (estimateSize (JObj o) <= MAX_EVENT_SIZE)%N ->
     includes signalTypes (get o "signalType") = true ->
     get o "value" = JNum n -> num_is_finite n = true ->
     exists cleaned ws,
       validateEvent (JObj o) mode = Ret (mkVR true (Some (JObj cleaned)) [] ws) /\
       (num_lt n (js_int 0) = true -> get cleaned "value" = JNum (js_int 0)) /\
       (num_lt (js_int 1) n = true -> get cleaned "value" = JNum (js_int 1)) /\
       (num_lt n (js_int 0) || num_lt (js_int 1) n = true -> ws <> [])).
Proof.
  split.
  - intros o mode f n Ht Hs Hall Hin Hg.
    destruct (validatePerformanceReported_finite o Hall) as [cl [ws [Hv [Hu Hn]]]].
    exists cl, ws. split.
    { apply (validateEvent_dispatch o mode "PERFORMANCE_REPORTED"); [exact Ht|exact Hs|].
      rewrite <- Hv. reflexivity. }
    assert (Hfin : num_is_finite n = true).
    { rewrite forallb_forall in Hall. specialize (Hall f Hin). rewrite Hg in Hall. exact Hall. }
    apply in_app_or in Hin as [Hin|Hin].
    + destruct (Hu f n Hin Hg) as [Hc Hw].
      split; [|split].
      * intros Hl. rewrite Hc. f_equal. apply clamp_unit_below. exact Hl.
      * intros _ Hl. rewrite Hc. f_equal. apply clamp_unit_above. exact Hl.
      * intros _ Hl. apply Hw. apply orb_true_iff in Hl as [Hl|Hl].
        -- destruct (clamp_unit_below n Hl) as [-> E]. destruct n; try discriminate; exact E.
        -- destruct (clamp_unit_above n Hl) as [-> E]. destruct n; try discriminate; exact E.
    + split; [|split].
      * intros Hl. rewrite (Hn f n Hin Hg). f_equal. apply clamp_nonneg_below. exact Hl.
      * intros Hu'. exfalso. exact (unit_nonneg_disjoint f Hu' Hin).
      * intros Hu'. exfalso. exact (unit_nonneg_disjoint f Hu' Hin).
  - intros o mode n Ht Hs Hsig Hg Hfin.
    destruct (validateUserSignal_value o Hsig) as [cl [ws [Hv [_ Hn]]]].
    exists cl, ws. split.
    { apply (validateEvent_dispatch o mode "USER_SIGNAL"); [exact Ht|exact Hs|].
      rewrite <- Hv. reflexivity. }
    destruct (Hn n Hg Hfin) as [Hc Hw].
    split; [|split].
    + intros Hl. rewrite Hc. f_equal. apply clamp_unit_below. exact Hl.
    + intros Hl. rewrite Hc. f_equal. apply clamp_unit_above. exact Hl.
    + intros Hl. apply Hw. apply orb_true_iff in Hl as [Hl|Hl].
      * destruct (clamp_unit_below n Hl) as [-> E]. destruct n; try discriminate; exact E.
      * destruct (clamp_unit_above n Hl) as [-> E]. destruct n; try discriminate; exact E.
Qed.

Lemma analytics_clamped_witness :
  (exists cleaned ws,
     validateEvent (JObj perfOutOfRange) production
       = Ret (mkVR true (Some (JObj cleaned)) [] ws) /\
     get cleaned "accuracy" = JNum (js_int 1) /\
     get cleaned "reactionTimeMs" = JNum (js_int 0) /\ ws <> []) /\
  (exists cleaned ws,
     validateEvent (JObj userSignalHigh) development
       = Ret (mkVR true (Some (JObj cleaned)) [] ws) /\
     get cleaned "value" = JNum (js_int 1) /\ ws <> []).
Proof.
  split.
  - destruct (proj1 analytics_clamped perfOutOfRange production "accuracy" (NFin 15 (-1))
                eq_refl ltac:(vm_compute; discriminate) eq_refl
                ltac:(left; reflexivity) eq_refl) as [cl [ws [Hv [_ [Hhi Hw]]]]].
    destruct (proj1 analytics_clamped perfOutOfRange production "reactionTimeMs" (js_int (-5))
                eq_refl ltac:(vm_compute; discriminate) eq_refl
                ltac:(right; right; left; reflexivity) eq_refl) as [cl' [ws' [Hv' [Hlo _]]]].
    rewrite Hv in Hv'. injection Hv' as <- <-.
    exists cl, ws. split; [exact Hv|]. split; [|split].
    + apply Hhi; [left; reflexivity|reflexivity].
    + apply Hlo. reflexivity.
    + apply Hw; [left; reflexivity|reflexivity].
  - destruct (proj2 analytics_clamped userSignalHigh development (js_int 3)
                eq_refl ltac:(vm_compute; discriminate) eq_refl eq_refl eq_refl)
      as [cl [ws [Hv [_ [Hhi Hw]]]]].
    exists cl, ws. split; [exact Hv|]. split.
    + apply Hhi. reflexivity.
    + apply Hw. reflexivity.
Defined.

(** ** C6: non-numeric analytics values *)

(** Claim C6 fails as stated: [accuracy: 'high'] makes a
    [PERFORMANCE_REPORTED] event invalid instead of being dropped. *)
Lemma perf_text_accuracy_rejected :
  validateEvent (JObj perfAccuracyHigh) development
  = Ret (mkVR false None ["accuracy must be a number"%string] []).
Proof. vm_compute. reflexivity. Qed.

(** C6 (amended): a present [USER_SIGNAL] [value] that is not a finite
    number is removed from the cleaned event with a warning, and the
    event stays valid when its [signalType] is; a present
    [PERFORMANCE_REPORTED] field that is not a finite number makes the
    event invalid with the error "<field> must be a number". *)
Theorem non_numeric_analytics :
  (forall o mode,
     get o "type" = JStr "USER_SIGNAL" ->
     (estimateSize (JObj o) <= MAX_EVENT_SIZE)%N ->
     includes signalTypes (get o "signalType") = true ->
     finite_or_absent (get o "value") = false ->
     exists cleaned ws,
       validateEvent (JObj o) mode = Ret (mkVR true (Some (JObj cleaned)) [] ws) /\
       get cleaned "value" = JUndefined /\ ws <> []) /\
  (forall o mode f,
     get o "type" = JStr "PERFORMANCE_REPORTED" ->
     (estimateSize (JObj o) <= MAX_EVENT_SIZE)%N ->
     In f perfFields -> finite_or_absent (get o f) = false ->
     exists r, validateEvent (JObj o) mode = Ret r /\ valid r = false /\
               In (f ++ " must be a number")%string (errors r)).
Proof.
  split.
  - intros o mode Ht Hs Hsig Hf.
    destruct (validateUserSignal_value o Hsig) as [cl [ws [Hv [Hd _]]]].
    exists cl, ws. split.
    + apply (validateEvent_dispatch o mode "USER_SIGNAL"); [exact Ht|exact Hs|].
      rewrite <- Hv. reflexivity.
    + exact (Hd Hf).
  - intros o mode f Ht Hs Hin Hf.
    exists (validatePerformanceReported o). split.
    + apply (validateEvent_dispatch o mode "PERFORMANCE_REPORTED"); [exact Ht|exact Hs|].
      reflexivity.
    + exact (validatePerformanceReported_bad_field o f Hin Hf).
Qed.

Lemma non_numeric_analytics_witness :
  (exists cleaned ws,
     validateEvent (JObj userSignalText) production
       = Ret (mkVR true (Some (JObj cleaned)) [] ws) /\
     get cleaned "value" = JUndefined /\ ws <> []) /\
  (exists r, validateEvent (JObj perfAccuracyHigh) production = Ret r /\ valid r = false).
Proof.
  split.
  - apply (proj1 non_numeric_analytics userSignalText production);
      [reflexivity|vm_compute; discriminate|reflexivity|reflexivity].
  - destruct (proj2 non_numeric_analytics perfAccuracyHigh production "accuracy"
                eq_refl ltac:(vm_compute; discriminate) ltac:(left; reflexivity) eq_refl)
      as [r [Hv [Hr _]]].
    exists r. split; assumption.
Defined.

(** ** C3: the session state machine *)

(** Claim C3 fails as stated: a listener that ends the session when it
    is told it started makes the listeners after it hear [ENDED] before
    [IN_SESSION] (each notification may visit up to 1000 entries, far
    more than the two of this run). *)
Lemma reentrant_listener_reorders :
  observed 1 (snd (run_driver 1000 reentrantRun initDriver [])) = [ENDED; IN_SESSION].
Proof. reflexivity. Qed.

Lemma snapshot_state : forall s ctx,
  createContextSnapshot s = Ret ctx -> ctx_state ctx = currentState s.
Proof.
  intros s ctx H. unfold createContextSnapshot in H.
  destruct (currentState s).
  - injection H as <-. reflexivity.
  - destruct (sessionId s), (startTime s); try discriminate.
    destruct (createTimestampOf _); try discriminate. injection H as <-. reflexivity.
  - destruct (sessionId s), (sessionDurationMs s); try discriminate.
    destruct (createDuration _); try discriminate. injection H as <-. reflexivity.
Qed.

Lemma skipn_nth_error : forall {A} (l : list A) i x,
  nth_error l i = Some x -> skipn i l = x :: skipn (S i) l.
Proof.
  intros A l. induction l as [|y l IH]; intros [|i] x H; simpl in *; try discriminate.
  - injection H as ->. reflexivity.
  - apply IH. exact H.
Qed.

Lemma skipn_nth_error_None : forall {A} (l : list A) i,
  nth_error l i = None -> skipn i l = [].
Proof.
  intros A l i H. apply nth_error_None in H. apply skipn_all2. exact H.
Qed.

(** With quiet listeners, a walk only appends one entry per listener
    present in the part of the list it visits. *)
Lemma walk_quiet : forall call ctx k i s log,
  Forall quiet_entry (listeners s) ->
  walk call ctx k i s log
  = (s, app log (map (fun id => (id, ctx)) (live_ids (firstn k (skipn i (listeners s)))))).
Proof.
  intros call ctx k. induction k as [|k IH]; intros i s log Hq; simpl.
  - rewrite app_nil_r. reflexivity.
  - destruct (nth_error (listeners s) i) as [[[id l]|]|] eqn:Hn.
    + rewrite (skipn_nth_error _ _ _ Hn). simpl.
      assert (Hl : fst (l ctx) = []).
      { apply nth_error_In in Hn. rewrite Forall_forall in Hq. exact (Hq _ Hn ctx). }
      rewrite Hl. simpl. rewrite IH by exact Hq. rewrite <- app_assoc. reflexivity.
    + rewrite (skipn_nth_error _ _ _ Hn). simpl. apply IH. exact Hq.
    + rewrite (skipn_nth_error_None _ _ Hn). simpl. rewrite app_nil_r. reflexivity.
Qed.

Lemma observed_app : forall id a b,
  observed id (app a b) = app (observed id a) (observed id b).
Proof. intros. unfold observed. rewrite filter_app, map_app. reflexivity. Qed.

Lemma observed_map : forall id ctx ids,
  observed id (map (fun j => (j, ctx)) ids) = repeat (ctx_state ctx) (count_occ Nat.eq_dec ids id).
Proof.
  intros id ctx ids. induction ids as [|j ids IH]; [reflexivity|].
  unfold observed in *. simpl.
  destruct (Nat.eqb_spec j id) as [->|Hne]; simpl.
  - destruct (Nat.eq_dec id id); [|contradiction]. simpl. rewrite IH. reflexivity.
  - destruct (Nat.eq_dec j id); [contradiction|]. exact IH.
Qed.

Lemma live_ids_app : forall a b, live_ids (app a b) = app (live_ids a) (live_ids b).
Proof. intros. unfold live_ids. apply flat_map_app. Qed.

Lemma live_ids_window : forall ls k i id,
  NoDup (live_ids ls) ->
  (count_occ Nat.eq_dec (live_ids (firstn k (skipn i ls))) id <= 1)%nat.
Proof.
  intros ls k i id Hnd.
  apply (NoDup_count_occ Nat.eq_dec) with (x := id) in Hnd.
  rewrite <- (firstn_skipn i ls) in Hnd.
  rewrite <- (firstn_skipn k (skipn i ls)) in Hnd.
  rewrite !live_ids_app, !count_occ_app in Hnd. lia.
Qed.

Lemma live_ids_unsubscribe : forall ls id,
  live_ids (map (fun e => match e with
                          | Some (id', _) => if Nat.eqb id' id then None else e
                          | None => None
                          end) ls)
  = filter (fun j => negb (Nat.eqb j id)) (live_ids ls).
Proof.
  intros ls id. induction ls as [|[[j l]|] ls IH]; simpl; [reflexivity| |exact IH].
  destruct (Nat.eqb j id); simpl; rewrite IH; reflexivity.
Qed.

Lemma has_listener_live : forall ls id,
  has_listener ls id = false -> ~ In id (live_ids ls).
Proof.
  intros ls id H Hin. unfold has_listener in H. unfold live_ids in Hin.
  apply in_flat_map in Hin as [[[j l]|] [He Hj]]; [|contradiction].
  destruct Hj as [->|[]].
  assert (existsb (fun e => match e with Some (id', _) => Nat.eqb id' id | None => false end) ls = true)
    by (apply existsb_exists; exists (Some (id, l)); split; [exact He|apply Nat.eqb_refl]).
  congruence.
Qed.

Lemma NoDup_snoc : forall {A} (l : list A) x,
  NoDup l -> ~ In x l -> NoDup (app l [x]).
Proof.
  intros A l x. induction l as [|y l IH]; intros Hnd Hx; simpl.
  - constructor; [intros []|constructor].
  - inversion Hnd as [|y' l' Hy Hnd']; subst.
    constructor.
    + intros Hin. apply in_app_or in Hin as [Hin|[<-|[]]]; [contradiction|].
      apply Hx. left. reflexivity.
    + apply IH; [exact Hnd'|]. intros Hin. apply Hx. right. exact Hin.
Qed.

(** A notification with quiet listeners leaves the driver as it is and
    tells each listener, at most once, the current state. *)
Lemma notify_quiet : forall nb call s log,
  Forall quiet_entry (listeners s) -> NoDup (live_ids (listeners s)) ->
  let '(s', log', _) := notifyListeners nb call s log in
  s' = s /\
  forall id, observed id log' = observed id log \/
             observed id log' = app (observed id log) [currentState s].
Proof.
  intros nb call s log Hq Hnd. unfold notifyListeners.
  destruct (createContextSnapshot s) as [ctx|x] eqn:E.
  - rewrite walk_quiet by exact Hq. split; [reflexivity|].
    intros id. rewrite observed_app, observed_map, (snapshot_state _ _ E).
    pose proof (live_ids_window (listeners s) nb 0 id Hnd) as Hc.
    destruct (count_occ Nat.eq_dec _ id) as [|[|c]].
    + left. apply app_nil_r.
    + right. reflexivity.
    + lia.
  - split; [reflexivity|]. intros id. left. reflexivity.
Qed.

Lemma driver_call_inv : forall nb fuel c s log,
  driver_inv s log -> quiet_cmd c ->
  let '(s', log', _) := driver_call nb fuel c s log in driver_inv s' log'.
Proof.
  intros nb fuel c s log Hinv Hc.
  destruct Hinv as [Hq [Hnd Hobs]].
  assert (Hinv : driver_inv s log) by (split; [exact Hq|split; [exact Hnd|exact Hobs]]).
  destruct c as [sid now|now|now|id l|id]; destruct fuel as [|f]; cbn [driver_call].
  (* [startSession], [endSession] and [abortSession] *)
  1-6: destruct (currentState s) eqn:Est; try exact Hinv;
    match goal with
    | |- context [notifyListeners ?b ?call ?s1 ?lg] =>
        pose proof (notify_quiet b call s1 lg Hq Hnd) as Hn;
        destruct (notifyListeners b call s1 lg) as [[s' log'] r];
        destruct Hn as [-> Hn];
        split; [exact Hq|split; [exact Hnd|]];
        intros i; specialize (Hobs i); destruct (Hn i) as [E|E]; rewrite E; clear E Hn;
        simpl in Hobs |- *;
        repeat match goal with H : _ \/ _ |- _ => destruct H end; try contradiction;
        repeat match goal with H : _ = observed _ _ |- _ => rewrite <- H end;
        simpl; repeat (first [left; reflexivity | right])
    end.
  (* [subscribe] *)
  1-2: destruct (has_listener (listeners s) id) eqn:Eh; [exact Hinv|];
    (split; [apply Forall_app; split; [exact Hq|constructor; [exact Hc|constructor]]|];
     split; [simpl; rewrite live_ids_app; apply NoDup_snoc;
             [exact Hnd|apply has_listener_live; exact Eh]|exact Hobs]).
  (* [unsubscribe] *)
  all: split; [|split; [simpl; rewrite live_ids_unsubscribe; apply NoDup_filter; exact Hnd
                       |exact Hobs]];
       simpl; apply Forall_map; eapply Forall_impl; [|exact Hq];
       intros [[j l]|] He; simpl; [destruct (Nat.eqb j id); [exact I|exact He]|exact I].
Qed.

Lemma run_driver_inv : forall nb cs s log,
  driver_inv s log -> Forall quiet_cmd cs ->
  driver_inv (fst (run_driver nb cs s log)) (snd (run_driver nb cs s log)).
Proof.
  intros nb. induction cs as [|c cs IH]; intros s log Hinv Hq; [exact Hinv|].
  inversion Hq as [|c' cs' Hc Hq']; subst c' cs'. cbn [run_driver].
  pose proof (driver_call_inv nb driver_fuel c s log Hinv Hc) as Hstep.
  destruct (driver_call nb driver_fuel c s log) as [[s' log'] r].
  apply IH; assumption.
Qed.

Lemma initDriver_inv : driver_inv initDriver [].
Proof. split; [constructor|split; [constructor|intros id; left; reflexivity]]. Qed.

(** With quiet listeners a notification leaves the driver state as it is. *)
Lemma notify_quiet_listeners : forall nb call s log,
  Forall quiet_entry (listeners s) ->
  fst (fst (notifyListeners nb call s log)) = s.
Proof.
  intros nb call s log Hq. unfold notifyListeners.
  destruct (createContextSnapshot s); [rewrite walk_quiet by exact Hq|]; reflexivity.
Qed.

(** With quiet listeners, a loop bound that covers the entry list visits
    all of it: any two such bounds give the same notification. *)
Lemma notify_quiet_bound : forall nb nb' call call' s log,
  Forall quiet_entry (listeners s) ->
  (length (listeners s) <= nb)%nat -> (length (listeners s) <= nb')%nat ->
  notifyListeners nb call s log = notifyListeners nb' call' s log.
Proof.
  intros nb nb' call call' s log Hq H1 H2. unfold notifyListeners.
  destruct (createContextSnapshot s); [|reflexivity].
  rewrite !walk_quiet by exact Hq. rewrite skipn_O, (firstn_all2 _ H1), (firstn_all2 _ H2).
  reflexivity.
Qed.

Lemma driver_call_bound : forall nb nb' fuel c s log,
  Forall quiet_entry (listeners s) ->
  (length (listeners s) <= nb)%nat -> (length (listeners s) <= nb')%nat ->
  driver_call nb fuel c s log = driver_call nb' fuel c s log.
Proof.
  intros nb nb' fuel c s log Hq H1 H2.
  destruct c as [sid now|now|now|id l|id]; destruct fuel as [|f]; cbn [driver_call];
    try reflexivity;
    destruct (currentState s); try reflexivity; apply notify_quiet_bound; assumption.
Qed.

(** A quiet call adds at most one entry to the listener list. *)
Lemma driver_call_length : forall nb fuel c s log,
  Forall quiet_entry (listeners s) ->
  (length (listeners (fst (fst (driver_call nb fuel c s log)))) <= S (length (listeners s)))%nat.
Proof.
  intros nb fuel c s log Hq.
  destruct c as [sid now|now|now|id l|id]; destruct fuel as [|f]; cbn [driver_call].
  1-6: destruct (currentState s); cbn [fst]; try lia;
       rewrite notify_quiet_listeners by exact Hq; cbn [listeners endedState]; lia.
  1-2: destruct (has_listener (listeners s) id); cbn [fst listeners];
       [lia|rewrite length_app; cbn [length]; lia].
  all: cbn [fst listeners]; rewrite length_map; lia.
Qed.

(** With quiet listeners, every loop bound from the number of entries
    the run can create up gives the same run. *)
Lemma run_driver_bound : forall cs nb nb' s log,
  driver_inv s log -> Forall quiet_cmd cs ->
  (length (listeners s) + length cs <= nb)%nat ->
  (length (listeners s) + length cs <= nb')%nat ->
  run_driver nb cs s log = run_driver nb' cs s log.
Proof.
  induction cs as [|c cs IH]; intros nb nb' s log Hinv Hq H1 H2; [reflexivity|].
  inversion Hq as [|c' cs' Hc Hq']; subst c' cs'. cbn [run_driver length] in *.
  pose proof (proj1 Hinv) as Hqe.
  rewrite (driver_call_bound nb nb' driver_fuel c s log Hqe) by lia.
  pose proof (driver_call_inv nb' driver_fuel c s log Hinv Hc) as Hinv'.
  pose proof (driver_call_length nb' driver_fuel c s log Hqe) as Hl.
  destruct (driver_call nb' driver_fuel c s log) as [[s' log'] r]. cbn [fst] in Hl.
  apply IH; [exact Hinv'|exact Hq'|lia|lia].
Qed.

(** C3 (amended): [startSession] throws whenever the state is not
    INITIAL, [endSession] and [abortSession] throw whenever it is not
    IN_SESSION; and as long as the listeners make no driver calls of
    their own, each listener observes a subsequence of IN_SESSION,
    ENDED (INITIAL is never delivered: listeners are only notified of
    transitions).  This holds for every bound [nb] on the entries one
    notification visits, and the last conjunct shows that, with such
    listeners, every bound from the number of calls up gives the same
    run: the bound is then never reached, as in JavaScript. *)
Theorem session_monotone :
  (forall nb fuel sid now s log,
     currentState s <> INITIAL ->
     is_throw (snd (driver_call nb fuel (StartSession sid now) s log)) = true) /\
  (forall nb fuel now s log,
     currentState s <> IN_SESSION ->
     is_throw (snd (driver_call nb fuel (EndSession now) s log)) = true /\
     is_throw (snd (driver_call nb fuel (AbortSession now) s log)) = true) /\
  (forall nb cs id,
     Forall quiet_cmd cs ->
     In (observed id (snd (run_driver nb cs initDriver [])))
        [[]; [IN_SESSION]; [ENDED]; [IN_SESSION; ENDED]]) /\
  (forall nb nb' cs,
     Forall quiet_cmd cs -> (length cs <= nb)%nat -> (length cs <= nb')%nat ->
     run_driver nb cs initDriver [] = run_driver nb' cs initDriver []).
Proof.
  split; [|split; [|split]].
  - intros nb fuel sid now s log H.
    destruct fuel; cbn [driver_call]; destruct (currentState s); try reflexivity;
      contradiction.
  - intros nb fuel now s log H.
    destruct fuel; cbn [driver_call]; destruct (currentState s); try (split; reflexivity);
      contradiction.
  - intros nb cs id Hq.
    destruct (run_driver_inv nb cs initDriver [] initDriver_inv Hq) as [_ [_ Hobs]].
    specialize (Hobs id).
    destruct (currentState (fst (run_driver nb cs initDriver []))); simpl in Hobs |- *;
      tauto.
  - intros nb nb' cs Hq H1 H2.
    apply run_driver_bound; [exact initDriver_inv|exact Hq|cbn; lia|cbn; lia].
Qed.

Lemma session_monotone_witness :
  Forall quiet_cmd quietRun /\
  observed 0 (snd (run_driver 6 quietRun initDriver [])) = [IN_SESSION; ENDED] /\
  In (observed 0 (snd (run_driver 6 quietRun initDriver [])))
     [[]; [IN_SESSION]; [ENDED]; [IN_SESSION; ENDED]] /\
  run_driver 6 quietRun initDriver [] = run_driver 1000 quietRun initDriver [] /\
  is_throw (snd (driver_call 6 driver_fuel (StartSession "s2" 6)
                   (mkDS IN_SESSION (Some "s1") (Some 5) None []) [])) = true.
Proof.
  assert (Hq : Forall quiet_cmd quietRun).
  { repeat constructor; intros ctx; reflexivity. }
  split; [exact Hq|]. split; [reflexivity|]. split; [|split].
  - apply (proj1 (proj2 (proj2 session_monotone))). exact Hq.
  - apply (proj2 (proj2 (proj2 session_monotone))); [exact Hq|cbn; lia|cbn; lia].
  - apply (proj1 session_monotone). discriminate.
Defined.
Lemma finish_shape : forall ev errs,
  let r := finish ev errs in
  (valid r = true <-> errors r = []) /\ (valid r = true -> event r <> None) /\
  (valid r = false -> event r = None).
Proof.
  intros ev [|e errs]; simpl; repeat split; intros; try discriminate; reflexivity.
Qed.

Lemma dispatch_shape : forall t o r,
  dispatch t o = Some r ->
  (valid r = true <-> errors r = []) /\ (valid r = true -> event r <> None) /\
  (valid r = false -> event r = None).
Proof.
  intros t o r H. unfold dispatch in H.
  repeat match type of H with
  | (if ?b then _ else _) = _ => destruct b
  end; try discriminate; injection H as <-;
  try apply finish_shape.
  - unfold validatePerformanceReported. cbv zeta.
    match goal with |- context [match vs_errors ?st with _ => _ end] =>
      destruct (vs_errors st) end;
    simpl; repeat split; intros; try discriminate; reflexivity.
  - unfold validateUserSignal. cbv zeta.
    match goal with |- context [match vs_errors ?st with _ => _ end] =>
      destruct (vs_errors st) end;
    simpl; repeat split; intros; try discriminate; reflexivity.
Qed.

Lemma validateEvent_shape_core : forall ev mode r,
  validateEvent ev mode = Ret r ->
  (valid r = true <-> errors r = []) /\
  (valid r = true -> event r <> None) /\
  (valid r = false -> event r = None).
Proof.
  intros ev mode r H. unfold validateEvent in H.
  destruct ev as [| | | | | | | |xs|o]; try (injection H as <-; simpl; repeat split; intros; discriminate).
  destruct (get o "type"); try (injection H as <-; simpl; repeat split; intros; discriminate).
  cbv zeta in H. destruct (N.ltb _ _).
  - injection H as <-; simpl; repeat split; intros; discriminate.
  - destruct (dispatch s o) eqn:Hd.
    + injection H as <-. eapply dispatch_shape. exact Hd.
    + destruct mode; [injection H as <-; simpl; repeat split; intros; discriminate|discriminate].
Qed.

(** X1: whenever [validateEvent] returns a result, [valid] is true
    exactly when [errors] is empty, a valid result carries a cleaned event
    and an invalid one carries none. *)
Theorem validateEvent_result_shape : forall ev mode r,
  validateEvent ev mode = Ret r ->
  (valid r = true <-> errors r = []) /\
  (valid r = true -> event r <> None) /\
  (valid r = false -> event r = None).
Proof. exact validateEvent_shape_core. Qed.

Lemma validateEvent_result_shape_witness :
  validateEvent (JObj [("type", JStr "LEVEL_STARTED")]) development =
    Ret (mkVR false None ["levelId must be a non-empty string"; "attemptNumber must be a positive integer"; "difficulty must be an integer between 1 and 10"] []) /\
  event (mkVR false None ["levelId must be a non-empty string"; "attemptNumber must be a positive integer"; "difficulty must be an integer between 1 and 10"] []) = None.
Proof.
  assert (H : validateEvent (JObj [("type", JStr "LEVEL_STARTED")]) development =
    Ret (mkVR false None ["levelId must be a non-empty string"; "attemptNumber must be a positive integer"; "difficulty must be an integer between 1 and 10"] [])).
  { vm_compute. reflexivity. }
  split; [exact H|].
  apply (proj2 (proj2 (validateEvent_result_shape _ _ _ H))). reflexivity.
Defined.


















































Lemma is_dev_log_iff : forall t, is_dev_log t = true <-> t = JStr "DEV_LOG".
Proof.
  intros [| |b|n|s|z| | |xs|ps]; cbn [is_dev_log]; split; intros H; try discriminate H.
  - apply String.eqb_eq in H. subst. reflexivity.
  - injection H as ->. reflexivity.
Qed.

(** X7: Every call that returns is counted once, in [eventCount] (and then
    every handler is invoked) or in [droppedCount] (and no handler is),
    except a [DEV_LOG] event admitted by the limiter in production, which
    is counted in neither. *)
Theorem emit_counted_once : forall cfg now now_ts ev s,
  let st := emit cfg now now_ts ev s in
  (es_outcome st = Ret tt ->
   (eventCount (es_state st) = eventCount s + 1 /\ droppedCount (es_state st) = droppedCount s /\
    map fst (es_delivered st) = seq 0 (length (handlers cfg))) \/
   (eventCount (es_state st) = eventCount s /\ droppedCount (es_state st) = droppedCount s + 1 /\
    es_delivered st = []) \/
   (eventCount (es_state st) = eventCount s /\ droppedCount (es_state st) = droppedCount s /\
    es_delivered st = [] /\
    mode cfg = production /\ fst (checkRateLimit now s) = true /\
    read_type ev = Ret (JStr "DEV_LOG"))) /\
  (mode cfg = production -> fst (checkRateLimit now s) = true ->
   read_type ev = Ret (JStr "DEV_LOG") ->
   es_outcome st = Ret tt /\ es_state st = snd (checkRateLimit now s) /\ es_delivered st = []).
Proof.
  intros cfg now now_ts ev s st. unfold st, emit.
  pose proof (checkRateLimit_counts now s) as [Hc Hd].
  destruct (checkRateLimit now s) as [allowed s1]. cbn [fst snd] in *.
  destruct allowed; cbn [negb].
  - split.
    + destruct (mode cfg) eqn:Em.
      * destruct (read_type ev) as [t|x] eqn:Er; [|intros H; discriminate H].
        destruct (is_dev_log t) eqn:Edl.
        -- intros _. right. right. cbn. apply is_dev_log_iff in Edl. subst t.
           repeat split; auto.
        -- destruct (validateEvent ev production) as [r|x].
           ++ destruct (valid r); cbn [negb].
              ** destruct (getSessionId cfg); [|intros H; discriminate H].
                 destruct (createTimestamp now_ts); [|intros H; discriminate H].
                 intros _. left. cbn. rewrite deliver_indices. repeat split; congruence.
              ** intros _. right. left. cbn. repeat split; congruence.
           ++ intros _. right. left. cbn. repeat split; congruence.
      * destruct (validateEvent ev development) as [r|x].
        -- destruct (valid r); cbn [negb].
           ++ destruct (getSessionId cfg); [|intros H; discriminate H].
              destruct (createTimestamp now_ts); [|intros H; discriminate H].
              intros _. left. cbn. rewrite deliver_indices. repeat split; congruence.
           ++ intros _. right. left. cbn. repeat split; congruence.
        -- intros _. right. left. cbn. repeat split; congruence.
    + intros Em _ Er. rewrite Em, Er. cbn. repeat split.
  - split.
    + intros Ho. right. left.
      destruct (mode cfg); [|destruct (read_type ev) as [t|x]; [destruct (js_to_string t)|]];
        cbn in *; repeat split; try congruence.
    + intros _ H. discriminate H.
Qed.

Lemma emit_counted_once_witness :
  es_outcome (emit prodConfig 0 0 devLog (initEmitter 0)) = Ret tt /\
  es_state (emit prodConfig 0 0 devLog (initEmitter 0)) = mkES 0 0 0 1 /\
  es_delivered (emit prodConfig 0 0 devLog (initEmitter 0)) = [].
Proof.
  destruct (emit_counted_once prodConfig 0 0 devLog (initEmitter 0)) as [_ H].
  destruct (H eq_refl eq_refl eq_refl) as [H1 [H2 H3]].
  split; [exact H1|split; [rewrite H2; reflexivity|exact H3]].
Defined.

Lemma run_emits_flags_window : forall cfg t cs s k,
  rateLimitWindowStart s = t -> eventsInWindow s = Z.of_nat k -> (k <= 50)%nat ->
  Forall (fun c => c_now c - t < RATE_LIMIT_WINDOW_MS) cs ->
  admitted_flags (fst (run_emits cfg cs s))
  = (repeat true (Nat.min (50 - k) (length cs)) ++ repeat false (length cs - (50 - k)))%list.
Proof.
  intros cfg t cs. induction cs as [|c cs IH]; intros s k Hw He Hk Hf;
    [cbn [length]; rewrite Nat.min_0_r; reflexivity|].
  inversion Hf as [|c' cs' Hc Hf']; subst.
  rewrite run_emits_cons. cbn [fst admitted_flags map].
  pose proof (checkRateLimit_spec (c_now c) s) as Hs.
  pose proof (emit_window cfg (c_now c) (c_now_ts c) (c_event c) s) as [Ew Ee].
  destruct (checkRateLimit (c_now c) s) as [b s1]. cbn [fst snd] in *.
  destruct Hs as [_ [_ Hs]].
  replace (Z.leb RATE_LIMIT_WINDOW_MS (c_now c - rateLimitWindowStart s)) with false in Hs
    by (symmetry; apply Z.leb_gt; lia).
  destruct Hs as [Hw1 Hs].
  destruct (Z.leb MAX_EVENTS_PER_SECOND (eventsInWindow s)) eqn:Em.
  - destruct Hs as [-> He1]. apply Z.leb_le in Em. unfold MAX_EVENTS_PER_SECOND in Em.
    assert (k = 50%nat) by lia. subst k.
    fold (admitted_flags (fst (run_emits cfg cs (es_state (emit cfg (c_now c) (c_now_ts c) (c_event c) s))))).
    rewrite (IH _ 50%nat); [|congruence|congruence|lia|exact Hf'].
    cbn. rewrite Nat.sub_0_r. reflexivity.
  - destruct Hs as [-> He1]. apply Z.leb_gt in Em. unfold MAX_EVENTS_PER_SECOND in Em.
    fold (admitted_flags (fst (run_emits cfg cs (es_state (emit cfg (c_now c) (c_now_ts c) (c_event c) s))))).
    rewrite (IH _ (S k)); [|congruence|rewrite Ee, He1, He; lia|lia|exact Hf'].
    replace (50 - k)%nat with (S (50 - S k)) by lia. cbn [length Nat.min repeat app].
    rewrite Nat.sub_succ. reflexivity.
Qed.

(** X8: After [resetRateLimiter()] at time [t], of the calls made less than
    1000 ms after [t] the first 50 are admitted and every later one is
    refused, whatever the emitter did before. *)
Theorem resetRateLimiter_fresh_window : forall cfg t s cs,
  Forall (fun c => c_now c - t < RATE_LIMIT_WINDOW_MS) cs ->
  admitted_flags (fst (run_emits cfg cs (resetRateLimiter t s)))
  = (repeat true (Nat.min 50 (length cs)) ++ repeat false (length cs - 50))%list.
Proof.
  intros cfg t s cs Hf.
  apply (run_emits_flags_window cfg t cs (resetRateLimiter t s) 0); try reflexivity; [lia|exact Hf].
Qed.

Lemma resetRateLimiter_fresh_window_witness :
  admitted_flags (fst (run_emits prodConfig (repeat (mkCall 5 5 levelStarted) 52)
                         (resetRateLimiter 0 (mkES 3 7 0 50))))
  = (repeat true 50 ++ repeat false 2)%list.
Proof.
  apply (resetRateLimiter_fresh_window prodConfig 0 (mkES 3 7 0 50)
           (repeat (mkCall 5 5 levelStarted) 52)).
  apply Forall_forall. intros c Hc. apply repeat_spec in Hc. subst c. reflexivity.
Defined.

Lemma deliver_arg : forall hs j x i ee, In (i, ee) (deliver hs j x) -> ee = x.
Proof.
  induction hs as [|h hs IH]; intros j x i ee Hin; [destruct Hin|].
  cbn [deliver] in Hin. destruct (h x); (destruct Hin as [H|H]; [injection H as _ <-; reflexivity|eapply IH; exact H]).
Qed.

(** X9: Each handler receives the event as cleaned by a valid validation
    result (never the raw input), the [createTimestamp()] reading, the
    session id the host's [getSessionId()] returned, and the configured
    game id and SDK version. *)
Theorem emit_delivers_cleaned : forall cfg now now_ts ev s i ee,
  In (i, ee) (es_delivered (emit cfg now now_ts ev s)) ->
  exists r e' sid, validateEvent ev (mode cfg) = Ret r /\ valid r = true /\ event r = Some e' /\
    0 <= now_ts /\ getSessionId cfg = Ret sid /\
    ee = mkEE e' now_ts sid (gameId cfg) (sdkVersion cfg).
Proof.
  intros cfg now now_ts ev s i ee Hin. unfold emit in Hin.
  destruct (checkRateLimit now s) as [[|] s1]; cbn [negb] in Hin;
    [|destruct (mode cfg); [|destruct (read_type ev) as [t|x]; [destruct (js_to_string t)|]];
      destruct Hin].
  destruct (match mode cfg with
            | production => match read_type ev with Throw x => Throw x | Ret t => Ret (is_dev_log t) end
            | development => Ret false end) as [[|]|x]; try destruct Hin.
  destruct (validateEvent ev (mode cfg)) as [r|x] eqn:Ev; [|destruct Hin].
  destruct (valid r) eqn:Hv; cbn [negb] in Hin; [|destruct Hin].
  destruct (getSessionId cfg) as [sid|x] eqn:Hsid; [|destruct Hin].
  unfold createTimestamp in Hin. destruct (Z.ltb now_ts 0) eqn:Et; [destruct Hin|].
  cbn [es_delivered] in Hin. apply deliver_arg in Hin. subst ee.
  destruct (event r) as [e'|] eqn:He.
  - exists r, e', sid. repeat split; try assumption. apply Z.ltb_ge. exact Et.
  - exfalso. destruct ev as [| |b|n|s0|z| | |xs|o];
      destruct (validateEvent_shape_core _ _ _ Ev) as [_ [Hs _]]; apply Hs; assumption.
Qed.

Lemma emit_delivers_cleaned_witness :
  In (0%nat, mkEE levelStarted 5 (Some "s1") "memory-match" "1.0.0")
     (es_delivered (emit devConfigThrowingHandler 0 5 levelStarted (initEmitter 0))) /\
  exists r, validateEvent levelStarted development = Ret r /\ event r = Some levelStarted.
Proof.
  assert (Hin : In (0%nat, mkEE levelStarted 5 (Some "s1") "memory-match" "1.0.0")
     (es_delivered (emit devConfigThrowingHandler 0 5 levelStarted (initEmitter 0))))
    by (vm_compute; left; reflexivity).
  split; [exact Hin|].
  destruct (emit_delivers_cleaned devConfigThrowingHandler 0 5 levelStarted (initEmitter 0) _ _ Hin)
    as [r [e' [sid [Hr [_ [He [_ [_ Hee]]]]]]]].
  injection Hee as <-. exists r. split; assumption.
Defined.

Lemma driver_call_ended : forall nb fuel c s log,
  currentState s = ENDED ->
  let '(s', log', _) := driver_call nb fuel c s log in
  currentState s' = ENDED /\ sessionId s' = sessionId s /\
  sessionDurationMs s' = sessionDurationMs s /\ log' = log.
Proof.
  intros nb fuel c s log Hs.
  destruct c as [sid now|now|now|id l|id]; destruct fuel as [|f]; cbn [driver_call];
    try (rewrite Hs; repeat split; assumption).
  all: try (destruct (has_listener (listeners s) id); repeat split; assumption).
Qed.

Lemma run_driver_ended : forall nb cs s log,
  currentState s = ENDED ->
  currentState (fst (run_driver nb cs s log)) = ENDED /\
  sessionId (fst (run_driver nb cs s log)) = sessionId s /\
  sessionDurationMs (fst (run_driver nb cs s log)) = sessionDurationMs s /\
  snd (run_driver nb cs s log) = log.
Proof.
  intros nb. induction cs as [|c cs IH]; intros s log Hs; [repeat split; assumption|].
  cbn [run_driver].
  pose proof (driver_call_ended nb driver_fuel c s log Hs) as Hc.
  destruct (driver_call nb driver_fuel c s log) as [[s' log'] r].
  destruct Hc as [H1 [H2 [H3 ->]]].
  destruct (IH s' log H1) as [E1 [E2 [E3 E4]]].
  repeat split; congruence.
Qed.

(** X10: When [endSession] or [abortSession] reads a clock earlier than the
    session's start, the driver still moves to ENDED but the call throws
    [InvalidDurationError] before notifying any listener; from then on,
    whatever the host calls, [getContext()] and every event through the
    gate [renderGame] builds throw the same error. *)
Theorem end_before_start_breaks_driver : forall nb fuel c s log sid t0 now cs ev,
  (c = EndSession now \/ c = AbortSession now) ->
  currentState s = IN_SESSION -> sessionId s = Some sid -> startTime s = Some t0 ->
  now < t0 ->
  let '(s1, log1, r) := driver_call nb fuel c s log in
  r = Throw (InvalidDurationError (now - t0)) /\ log1 = log /\
  isSessionActive s1 = false /\
  getContext (fst (run_driver nb cs s1 log1)) = Throw (InvalidDurationError (now - t0)) /\
  snd (run_driver nb cs s1 log1) = log /\
  renderGatedEmit (fst (run_driver nb cs s1 log1)) ev = Throw (InvalidDurationError (now - t0)).
Proof.
  intros nb fuel c s log sid t0 now cs ev Hc Hs Hsid Ht Hlt.
  assert (Hstep : driver_call nb fuel c s log
                  = (endedState s now, log, Throw (InvalidDurationError (now - t0)))).
  { assert (Hsnap : createContextSnapshot (endedState s now)
                    = Throw (InvalidDurationError (now - t0))).
    { unfold createContextSnapshot, endedState. cbn [currentState sessionId sessionDurationMs].
      rewrite Hsid, Ht. unfold createDuration.
      replace (Z.ltb (now - t0) 0) with true by (symmetry; apply Z.ltb_lt; lia). reflexivity. }
    destruct Hc as [-> | ->]; destruct fuel; cbn [driver_call]; rewrite Hs;
      unfold notifyListeners; rewrite Hsnap; reflexivity. }
  rewrite Hstep.
  assert (He : currentState (endedState s now) = ENDED) by reflexivity.
  destruct (run_driver_ended nb cs (endedState s now) log He) as [E1 [E2 [E3 E4]]].
  assert (Hg : getContext (fst (run_driver nb cs (endedState s now) log))
               = Throw (InvalidDurationError (now - t0))).
  { unfold getContext, createContextSnapshot. rewrite E1, E2, E3.
    cbn [endedState sessionId sessionDurationMs]. rewrite Hsid, Ht. unfold createDuration.
    replace (Z.ltb (now - t0) 0) with true by (symmetry; apply Z.ltb_lt; lia). reflexivity. }
  repeat split; try assumption.
  unfold renderGatedEmit. rewrite Hg. reflexivity.
Qed.

Lemma end_before_start_breaks_driver_witness :
  driver_call 10 driver_fuel (EndSession 50) inSession100 []
  = (endedState inSession100 50, [], Throw (InvalidDurationError (-50))) /\
  renderGatedEmit (fst (run_driver 10 [StartSession "s2" 200; EndSession 300]
                          (endedState inSession100 50) [])) devLog
  = Throw (InvalidDurationError (-50)).
Proof.
  split; [reflexivity|].
  pose proof (end_before_start_breaks_driver 10 driver_fuel (EndSession 50) inSession100 [] "s1" 100 50
                [StartSession "s2" 200; EndSession 300] devLog
                (or_introl eq_refl) eq_refl eq_refl eq_refl ltac:(lia)) as H.
  destruct (driver_call 10 driver_fuel (EndSession 50) inSession100 []) as [[s1 log1] r] eqn:E.
  destruct H as [_ [_ [_ [_ [_ Hg]]]]].
  vm_compute in E. injection E as <- <- _. exact Hg.
Defined.

Lemma notify_quiet_ok : forall nb call s log ctx,
  Forall quiet_entry (listeners s) -> createContextSnapshot s = Ret ctx ->
  exists log', notifyListeners nb call s log = (s, log', Ret tt).
Proof.
  intros nb call s log ctx Hq Hs. unfold notifyListeners. rewrite Hs.
  rewrite walk_quiet by exact Hq. eexists. reflexivity.
Qed.

(** X11: With listeners that make no driver calls, [startSession] at clock
    reading [t0] and then [endSession] or [abortSession] at [t1 >= t0]
    both return; [getContext()] reports the session with start time [t0]
    in between, and the session with duration [t1 - t0] afterwards. *)
Theorem session_context_times : forall nb f1 f2 s log sid t0 t1 c,
  currentState s = INITIAL -> Forall quiet_entry (listeners s) ->
  (c = EndSession t1 \/ c = AbortSession t1) -> 0 <= t0 <= t1 ->
  let '(s1, log1, r1) := driver_call nb f1 (StartSession sid t0) s log in
  r1 = Ret tt /\ isSessionActive s1 = true /\ getContext s1 = Ret (CtxInSession sid t0) /\
  let '(s2, log2, r2) := driver_call nb f2 c s1 log1 in
  r2 = Ret tt /\ isSessionActive s2 = false /\ getContext s2 = Ret (CtxEnded sid (t1 - t0)).
Proof.
  intros nb f1 f2 s log sid t0 t1 c Hs Hq Hc Ht.
  set (s1 := mkDS IN_SESSION (Some sid) (Some t0) (sessionDurationMs s) (listeners s)).
  assert (Hs1 : createContextSnapshot s1 = Ret (CtxInSession sid t0)).
  { unfold createContextSnapshot, s1. cbn [currentState sessionId startTime].
    unfold createTimestampOf. replace (Z.ltb t0 0) with false by (symmetry; apply Z.ltb_ge; lia).
    reflexivity. }
  assert (Hs2 : createContextSnapshot (endedState s1 t1) = Ret (CtxEnded sid (t1 - t0))).
  { unfold createContextSnapshot, endedState, s1. cbn [currentState sessionId startTime sessionDurationMs].
    unfold createDuration. replace (Z.ltb (t1 - t0) 0) with false by (symmetry; apply Z.ltb_ge; lia).
    reflexivity. }
  assert (E1 : exists log1, driver_call nb f1 (StartSession sid t0) s log = (s1, log1, Ret tt)).
  { destruct f1; cbn [driver_call]; rewrite Hs; apply notify_quiet_ok with (ctx := CtxInSession sid t0);
      assumption. }
  destruct E1 as [log1 E1]. rewrite E1.
  split; [reflexivity|]. split; [reflexivity|]. split; [exact Hs1|].
  assert (E2 : exists log2, driver_call nb f2 c s1 log1 = (endedState s1 t1, log2, Ret tt)).
  { destruct Hc as [-> | ->]; destruct f2; cbn [driver_call]; cbn [currentState s1];
      apply notify_quiet_ok with (ctx := CtxEnded sid (t1 - t0)); assumption. }
  destruct E2 as [log2 E2]. rewrite E2.
  split; [reflexivity|]. split; [reflexivity|]. exact Hs2.
Qed.

Lemma session_context_times_witness :
  getContext (fst (run_driver 10 [StartSession "s1" 1000; AbortSession 1500] initDriver []))
  = Ret (CtxEnded "s1" 500).
Proof.
  pose proof (session_context_times 10 driver_fuel driver_fuel initDriver [] "s1" 1000 1500
                (AbortSession 1500) eq_refl (Forall_nil _) (or_intror eq_refl) ltac:(lia)) as H.
  cbn [run_driver].
  destruct (driver_call 10 driver_fuel (StartSession "s1" 1000) initDriver []) as [[s1 log1] r1].
  destruct H as [_ [_ [_ H]]].
  destruct (driver_call 10 driver_fuel (AbortSession 1500) s1 log1) as [[s2 log2] r2].
  destruct H as [_ [_ H]]. exact H.
Defined.

Lemma notify_quiet_log : forall nb call s log,
  Forall quiet_entry (listeners s) -> (length (listeners s) <= nb)%nat ->
  let '(s', log', r) := notifyListeners nb call s log in
  r = Ret tt ->
  s' = s /\ exists ctx, createContextSnapshot s = Ret ctx /\
    log' = app log (map (fun id => (id, ctx)) (live_ids (listeners s))).
Proof.
  intros nb call s log Hq Hlen. unfold notifyListeners.
  destruct (createContextSnapshot s) as [ctx|x] eqn:E; [|intros H; discriminate H].
  rewrite walk_quiet by exact Hq. intros _. split; [reflexivity|].
  exists ctx. split; [reflexivity|]. rewrite skipn_O, firstn_all2 by exact Hlen. reflexivity.
Qed.

(** X13: With listeners that make no driver calls, a transition that returns
    calls every subscribed listener once, in subscription order, each
    with the context [getContext()] reports after the call.  This holds
    for every bound [nb] on the entries one notification visits that
    covers the entry list (the JavaScript loop has no bound). *)
Theorem transition_notifies_subscribers : forall nb fuel c s log,
  Forall quiet_entry (listeners s) -> (length (listeners s) <= nb)%nat ->
  (exists sid now, c = StartSession sid now) \/ (exists now, c = EndSession now) \/
  (exists now, c = AbortSession now) ->
  let '(s', log', r) := driver_call nb fuel c s log in
  r = Ret tt ->
  exists ctx, getContext s' = Ret ctx /\
    log' = app log (map (fun id => (id, ctx)) (live_ids (listeners s))).
Proof.
  intros nb fuel c s log Hq Hlen Hc.
  destruct Hc as [[sid [now ->]]|[[now ->]|[now ->]]]; destruct fuel as [|f]; cbn [driver_call];
    destruct (currentState s); try (intros H; discriminate H);
    match goal with
    | |- context [notifyListeners ?b ?call ?s1 ?lg] =>
        pose proof (notify_quiet_log b call s1 lg Hq Hlen) as Hn;
        destruct (notifyListeners b call s1 lg) as [[s' log'] r];
        intros Hr; destruct (Hn Hr) as [-> [ctx [Hs Hl]]];
        exists ctx; split; [exact Hs|exact Hl]
    end.
Qed.

Lemma transition_notifies_subscribers_witness :
  snd (fst (driver_call 3 driver_fuel (StartSession "s1" 5)
              (mkDS INITIAL None None None [Some (2%nat, quietListener); None; Some (1%nat, quietListener)])
              []))
  = [(2, CtxInSession "s1" 5); (1, CtxInSession "s1" 5)]%nat.
Proof.
  pose proof (transition_notifies_subscribers 3 driver_fuel (StartSession "s1" 5)
                (mkDS INITIAL None None None [Some (2%nat, quietListener); None; Some (1%nat, quietListener)])
                [] ltac:(repeat constructor) ltac:(vm_compute; lia)
                (or_introl (ex_intro _ "s1" (ex_intro _ 5 eq_refl)))) as H.
  destruct (driver_call 3 driver_fuel (StartSession "s1" 5)
              (mkDS INITIAL None None None [Some (2%nat, quietListener); None; Some (1%nat, quietListener)])
              []) as [[s' log'] r] eqn:E.
  vm_compute in E. injection E as <- <- <-.
  destruct (H eq_refl) as [ctx [Hg Hl]].
  vm_compute in Hg. injection Hg as <-. exact Hl.
Defined.

Lemma nodup_length_NoDup (l : list string) :
  length (nodup string_dec l) = length l <-> NoDup l.
Proof.
  split.
  - intro H. apply (NoDup_incl_NoDup (l:=nodup string_dec l) (l':=l)).
    + apply NoDup_nodup.
    + lia.
    + intros x Hx. apply (nodup_In string_dec). exact Hx.
  - intro H. rewrite nodup_fixed_point; auto.
Qed.

Lemma set_has_str_In (xs : list jsval) (c : string) :
  set_has_str xs c = true <-> In (JStr c) xs.
Proof.
  unfold set_has_str. rewrite existsb_exists. split.
  - intros [x [Hx Hc]]. destruct x; try discriminate Hc.
    apply String.eqb_eq in Hc. subst. exact Hx.
  - intro H. exists (JStr c). split; [exact H | apply String.eqb_refl].
Qed.

Lemma find_none_forall {A} (f : A -> bool) (l : list A) :
  find f l = None <-> forall x, In x l -> f x = false.
Proof.
  induction l as [|a l IH]; simpl.
  - split; [intros _ x [] | reflexivity].
  - destruct (f a) eqn:Ea.
    + split; [discriminate | intro H; rewrite (H a (or_introl eq_refl)) in Ea; discriminate].
    + rewrite IH. split.
      * intros H x [<-|Hx]; auto.
      * intros H x Hx. apply H. right. exact Hx.
Qed.

(** X14: [validateCapabilities] returns exactly when no capability is
    declared twice and every declared one is in the metadata's list; a
    duplicate is reported first, whatever the metadata says. *)
Theorem validateCapabilities_ok_iff (declared : list string) (metadata : list jsval) :
  (validateCapabilities declared metadata = None <->
     NoDup declared /\ forall cap, In cap declared -> In (JStr cap) metadata) /\
  (~ NoDup declared ->
     validateCapabilities declared metadata =
       Some (GameRegistrationError "Duplicate capabilities declared" (DetDeclared declared))).
Proof.
  unfold validateCapabilities. split.
  - destruct (Nat.eqb (length (nodup string_dec declared)) (length declared)) eqn:Ed;
      simpl.
    + apply Nat.eqb_eq, nodup_length_NoDup in Ed.
      destruct (find (fun cap => negb (set_has_str metadata cap)) declared) as [cap|] eqn:Ef.
      * split; [discriminate|]. intros [_ Hall].
        apply find_some in Ef as [Hin Hneg].
        pose proof (proj2 (set_has_str_In metadata cap) (Hall cap Hin)) as Hh.
        rewrite Hh in Hneg. discriminate.
      * split; [intros _|intros _; reflexivity]. split; [exact Ed|].
        intros cap Hcap. apply set_has_str_In.
        rewrite find_none_forall in Ef. specialize (Ef cap Hcap).
        destruct (set_has_str metadata cap); [reflexivity|discriminate].
    + split; [discriminate|]. intros [Hnd _].
      apply nodup_length_NoDup, Nat.eqb_eq in Hnd. congruence.
  - intro Hnd.
    destruct (Nat.eqb (length (nodup string_dec declared)) (length declared)) eqn:Ed.
    + apply Nat.eqb_eq, nodup_length_NoDup in Ed. contradiction.
    + reflexivity.
Qed.

Lemma validateMetadata_ok_caps (m : props) :
  validateMetadata (JObj m) = None ->
  exists caps, get m "capabilities" = JArr caps /\
               first_not_included VALID_CAPABILITIES caps = None.
Proof.
  intro H. unfold validateMetadata in H. split_matches H. eauto.
Qed.

Lemma validateMetadata_ok_obj (v : jsval) :
  validateMetadata v = None -> exists m, v = JObj m.
Proof. destruct v; simpl; try discriminate. eauto. Qed.

Lemma first_not_included_none (valid : list string) (xs : list jsval) :
  first_not_included valid xs = None -> forall x, In x xs -> includes valid x = true.
Proof.
  induction xs as [|a xs IH]; simpl; [intros _ x []|].
  destruct (includes valid a) eqn:Ea; [|discriminate].
  intros H x [<-|Hx]; auto.
Qed.

Lemma includes_str (valid : list string) (c : string) :
  includes valid (JStr c) = true -> In c valid.
Proof.
  simpl. rewrite existsb_exists. intros [y [Hy Hc]].
  apply String.eqb_eq in Hc. subst. exact Hy.
Qed.

(** X15: [createGame] returns exactly when the metadata validates, the
    declared capabilities pass [validateCapabilities] and [render] is a
    function; the registration then holds the metadata, the declared
    capabilities and [sdkVersion] "0.1.0", passes [isGameRegistration],
    and its capabilities are distinct and all among the five valid
    ones. *)
Theorem createGame_ok (config : GameConfig) (r : GameRegistration) :
  (createGame config = inr r <->
     exists m, cfg_metadata config = JObj m /\
       validateMetadata (JObj m) = None /\
       validateCapabilities (cfg_capabilities config) (metadata_capabilities m) = None /\
       cfg_render config = RenderComponent /\
       r = mkGameRegistration m (cfg_capabilities config) RenderComponent "0.1.0") /\
  (createGame config = inr r ->
     isGameRegistration (registration_value r) = true /\
     reg_sdkVersion r = "0.1.0" /\
     NoDup (reg_capabilities r) /\
     forall cap, In cap (reg_capabilities r) -> In cap VALID_CAPABILITIES).
Proof.
  assert (Hiff : createGame config = inr r <->
     exists m, cfg_metadata config = JObj m /\
       validateMetadata (JObj m) = None /\
       validateCapabilities (cfg_capabilities config) (metadata_capabilities m) = None /\
       cfg_render config = RenderComponent /\
       r = mkGameRegistration m (cfg_capabilities config) RenderComponent "0.1.0").
  { unfold createGame. split.
    - destruct (validateMetadata (cfg_metadata config)) eqn:Em; [discriminate|].
      destruct (cfg_metadata config) as [| | | | | | | | |m] eqn:Ec; try discriminate.
      destruct (validateCapabilities (cfg_capabilities config) (metadata_capabilities m))
        eqn:Ev; [discriminate|].
      destruct (cfg_render config) eqn:Er; [|discriminate].
      intro H. injection H as <-. exists m. repeat split; auto.
    - intros [m [Ec [Em [Ev [Er ->]]]]]. rewrite Ec, Em, Ev, Er. reflexivity. }
  split; [exact Hiff|].
  intro H. apply Hiff in H as [m [_ [Em [Ev [_ ->]]]]].
  apply validateCapabilities_ok_iff in Ev as [Hnd Hin].
  destruct (validateMetadata_ok_caps m Em) as [caps [Hc Hf]].
  unfold metadata_capabilities in Hin. rewrite Hc in Hin.
  split; [reflexivity|]. split; [reflexivity|]. split; [exact Hnd|].
  intros cap Hcap. simpl in Hcap.
  apply includes_str. apply (first_not_included_none _ caps Hf). auto.
Qed.

(** X16: the id pattern needs two characters, and [validateMetadata]
    applies it only to longer ids: a one-character id (an uppercase
    letter, a digit or a hyphen included) never fails the id checks. *)
Theorem validateMetadata_single_char_id (m : props) (c : ascii) :
  get m "id" = JStr (String c EmptyString) ->
  id_pattern (String c EmptyString) = false /\
  forall reason, validateMetadata (JObj m) <> Some (InvalidMetadataError "id" reason).
Proof.
  intro Hid. split.
  - simpl. apply andb_false_r.
  - intros reason H. unfold validateMetadata in H. rewrite Hid in H. cbn [String.length Nat.eqb Nat.ltb Nat.leb] in H.
    rewrite andb_false_r in H.
    split_matches H; congruence.
Qed.

Lemma validateCapabilities_ok_iff_witness :
  ~ NoDup ["audio"; "audio"] /\
  validateCapabilities ["audio"; "audio"] [JStr "audio"] =
    Some (GameRegistrationError "Duplicate capabilities declared" (DetDeclared ["audio"; "audio"])) /\
  validateCapabilities ["audio"] [JStr "audio"; JStr "timers"] = None.
Proof.
  assert (Hd : ~ NoDup ["audio"; "audio"]).
  { intro H. inversion H as [|x l Hx Hl]. apply Hx. left. reflexivity. }
  split; [exact Hd|]. split.
  - apply (proj2 (validateCapabilities_ok_iff ["audio"; "audio"] [JStr "audio"]) Hd).
  - apply (proj1 (validateCapabilities_ok_iff ["audio"] [JStr "audio"; JStr "timers"])).
    split.
    + constructor; [intros []|constructor].
    + intros cap [<-|[]]. left. reflexivity.
Defined.

Lemma createGame_ok_witness :
  createGame memoryMatchConfig =
    inr (mkGameRegistration (memoryMatchMetadata "memory-match" ["animations"; "haptics"])
           ["animations"; "haptics"] RenderComponent "0.1.0") /\
  isGameRegistration (registration_value
    (mkGameRegistration (memoryMatchMetadata "memory-match" ["animations"; "haptics"])
           ["animations"; "haptics"] RenderComponent "0.1.0")) = true.
Proof.
  assert (H : createGame memoryMatchConfig =
    inr (mkGameRegistration (memoryMatchMetadata "memory-match" ["animations"; "haptics"])
           ["animations"; "haptics"] RenderComponent "0.1.0")).
  { apply (proj1 (createGame_ok _ _)).
    exists (memoryMatchMetadata "memory-match" ["animations"; "haptics"]).
    split; [reflexivity|]. split; [vm_compute; reflexivity|].
    split; [vm_compute; reflexivity|]. split; reflexivity. }
  split; [exact H|]. exact (proj1 (proj2 (createGame_ok _ _) H)).
Defined.

Lemma validateMetadata_single_char_id_witness :
  id_pattern "M" = false /\
  (forall reason, validateMetadata (JObj (memoryMatchMetadata "M" ["audio"])) <>
                  Some (InvalidMetadataError "id" reason)) /\
  validateMetadata (JObj (memoryMatchMetadata "M" ["audio"])) = None.
Proof.
  split; [|split].
  - exact (proj1 (validateMetadata_single_char_id (memoryMatchMetadata "M" ["audio"]) "M" eq_refl)).
  - exact (proj2 (validateMetadata_single_char_id (memoryMatchMetadata "M" ["audio"]) "M" eq_refl)).
  - vm_compute. reflexivity.
Defined.

Lemma notifyInspectorListeners_all ls i c :
  notifyInspectorListeners ls i c = map (fun j => (j, c)) (seq i (length ls)).
Proof.
  revert i. induction ls as [|l ls IH]; intro i; simpl; [reflexivity|].
  destruct (l c); rewrite IH; reflexivity.
Qed.

Lemma validateEvent_development_throw (ev : jsval) :
  (unknown_tag_input ev = true ->
     exists o t, ev = JObj o /\ get o "type" = JStr t /\
                 validateEvent ev development = Throw (UnknownEventTypeError t)) /\
  (unknown_tag_input ev = false -> exists r, validateEvent ev development = Ret r).
Proof.
  destruct ev as [| | | | | | | | | o]; unfold validateEvent, unknown_tag_input;
    try (split; [discriminate | intros _; eexists; reflexivity]).
  destruct (get o "type") as [| | | |t| | | | |] eqn:Et;
    try (split; [discriminate | intros _; eexists; reflexivity]).
  cbv zeta. rewrite N.leb_antisym.
  destruct (N.ltb MAX_EVENT_SIZE (estimateSize (JObj o))) eqn:Es.
  - split; [discriminate | intros _; eexists; reflexivity].
  - destruct (dispatch t o) eqn:Ed.
    + assert (Ex : existsb (String.eqb t) eventTags = true).
      { destruct (existsb (String.eqb t) eventTags) eqn:E; [reflexivity|].
        apply (proj2 (dispatch_none t o)) in E; congruence. }
      rewrite Ex. split; [discriminate | intros _; eexists; reflexivity].
    + apply (proj1 (dispatch_none t o)) in Ed. rewrite Ed.
      split; [intros _; exists o, t; auto | discriminate].
Qed.

(** X17: in the event inspector, [captureRaw] on an event with an
    unrecognized tag throws [UnknownEventTypeError] and records nothing;
    on any other input it appends one capture with the next index and the
    development-mode validation, calls every listener once with it
    (ignoring their errors), and then throws exactly when the console
    label cannot be built: the input is [null] or [undefined], whose
    [type] cannot be read, or an object whose [type] does not convert to
    a string (a Symbol, for instance). *)
Theorem captureRaw_contract (now : Z) (ev : jsval) (st : InspectorState) :
  (unknown_tag_input ev = true ->
     exists t, captureRaw now ev st =
               mkInspectStep st [] (Throw (UnknownEventTypeError t))) /\
  (unknown_tag_input ev = false ->
     exists validation,
       let captured := mkCaptured None ev validation now (eventIndex st) in
       validateEvent ev development = Ret validation /\
       is_state (captureRaw now ev st) =
         mkInspector (history st ++ [captured])%list (inspectorListeners st)
                     (S (eventIndex st)) /\
       is_notified (captureRaw now ev st) =
         map (fun j => (j, captured)) (seq 0 (length (inspectorListeners st))) /\
       (is_throw (is_outcome (captureRaw now ev st)) = true <->
          ev = JNull \/ ev = JUndefined \/
          exists o, ev = JObj o /\ is_throw (js_to_string (get o "type")) = true)).
Proof.
  destruct (validateEvent_development_throw ev) as [Hu Hn]. split.
  - intro H. destruct (Hu H) as [o [t [_ [_ Hv]]]].
    exists t. unfold captureRaw. rewrite Hv. reflexivity.
  - intro H. destruct (Hn H) as [v Hv]. exists v. cbv zeta.
    unfold captureRaw. rewrite Hv. split; [reflexivity|].
    split; [destruct (read_type ev) as [t|x]; [destruct (js_to_string t)|]; reflexivity|].
    split; [destruct (read_type ev) as [t|x]; [destruct (js_to_string t)|];
            apply notifyInspectorListeners_all|].
    destruct ev as [| |b|n|s|z| | |xs|o]; simpl;
      try (split; [discriminate|intros [E|[E|[o' [E _]]]]; discriminate E]).
    + split; [intros _; right; left; reflexivity|intros _; reflexivity].
    + split; [intros _; left; reflexivity|intros _; reflexivity].
    + destruct (js_to_string (get o "type")) eqn:Ec; simpl; split.
      * discriminate.
      * intros [E|[E|[o' [E Ht]]]]; try discriminate E.
        injection E as <-. rewrite Ec in Ht. exact Ht.
      * intros _. right. right. exists o. rewrite Ec. split; reflexivity.
      * intros _. reflexivity.
Qed.

Lemma captureRaw_contract_witness :
  (exists t, captureRaw 0 (JObj [("type", JStr "LEVEL_SKIPPED")]) throwingListenerInspector =
             mkInspectStep throwingListenerInspector [] (Throw (UnknownEventTypeError t))) /\
  is_throw (is_outcome (captureRaw 0 JNull throwingListenerInspector)) = true /\
  length (history (is_state (captureRaw 0 JNull throwingListenerInspector))) = 1%nat /\
  is_notified (captureRaw 0 JNull throwingListenerInspector) <> [] /\
  is_throw (is_outcome (captureRaw 0 (JObj [("type", JSym)]) throwingListenerInspector)) = true /\
  length (history (is_state (captureRaw 0 (JObj [("type", JSym)]) throwingListenerInspector)))
  = 1%nat.
Proof.
  split.
  - apply (proj1 (captureRaw_contract 0 _ throwingListenerInspector)).
    vm_compute. reflexivity.
  - destruct (proj2 (captureRaw_contract 0 JNull throwingListenerInspector) eq_refl)
      as [v [_ [Hs [Hn Ho]]]].
    split; [apply Ho; left; reflexivity|].
    rewrite Hs, Hn. split; [reflexivity|]. split; [discriminate|].
    destruct (proj2 (captureRaw_contract 0 (JObj [("type", JSym)]) throwingListenerInspector)
                eq_refl) as [v' [_ [Hs' [_ Ho']]]].
    split; [apply Ho'; right; right; exists [("type", JSym)]; split; reflexivity|].
    rewrite Hs'. reflexivity.
Defined.
